(** * 3D-printed concrete wall dashboard: the slice locator and the table summaries

    A shallow embedding of the computational parts of [app.py]:

    - [get_all_slice_htmls] (lines 25-34): the directory scan, the two regular
      expressions it uses, [os.path.join], and the stable sort by [z_key];
    - the session flag (lines 52-61) and the slice viewer (lines 66-88);
    - the eccentricity block (lines 126-133) and the formatting that follows it.

    Python strings are modelled as lists of characters, Python's unbounded
    [int] as [Z], and an exception as the [Raise] branch of a result type.
    Tables are the numeric tables of the measurement pipeline: a cell is a
    finite number or the missing value. The eccentricity block only compares
    and copies cells, which binary64 does without rounding, so a finite cell
    is the rational it denotes. The reductions of lines 111-113 (mean,
    variance, standard deviation) round at every step inside pandas and are
    not modelled. *)

From Stdlib Require Import String Ascii List Bool Arith ZArith QArith.
From Stdlib Require Import Psatz Permutation Sorted.
Import ListNotations.

Set Implicit Arguments.

(* ================================================================= *)
(** ** Strings *)

(** A Python [str]: a sequence of characters. *)
Definition pystr : Type := list ascii.

(** Reading a literal. *)
Definition str (s : string) : pystr := list_ascii_of_string s.

Definition newline : ascii := "010"%char.
Definition slash : ascii := "/"%char.

Definition pystr_eqb (a b : pystr) : bool :=
  if list_eq_dec ascii_dec a b then true else false.

(** [needle in hay] is built from [hay.startswith(needle)] at every offset. *)
Fixpoint startswith (hay needle : pystr) {struct needle} : bool :=
  match needle, hay with
  | [], _ => true
  | _ :: _, [] => false
  | n :: needle', h :: hay' => Ascii.eqb n h && startswith hay' needle'
  end.

Fixpoint contains (needle hay : pystr) : bool :=
  startswith hay needle ||
  match hay with
  | [] => false
  | _ :: hay' => contains needle hay'
  end.

(** [str.lower()] on the ASCII range: [A-Z] go to [a-z]. *)
Definition lower_char (c : ascii) : ascii :=
  let n := nat_of_ascii c in
  if (65 <=? n)%nat && (n <=? 90)%nat then ascii_of_nat (n + 32) else c.

Definition lower (s : pystr) : pystr := map lower_char s.

(* ================================================================= *)
(** ** Exceptions *)

Inductive exn : Type :=
| KeyError
| IndexError
| ValueError
| TypeError
| FileNotFoundError.

Inductive result (A : Type) : Type :=
| Ok (a : A)
| Raise (e : exn).

Arguments Ok {A} a.
Arguments Raise {A} e.

Definition bind {A B : Type} (m : result A) (k : A -> result B) : result B :=
  match m with
  | Ok a => k a
  | Raise e => Raise e
  end.

Notation "x <- m ;; k" := (bind m (fun x => k))
  (at level 61, m at next level, right associativity).

(* ================================================================= *)
(** ** The fragment of Python's [re] that the program uses

    Both patterns of [get_all_slice_htmls] are sequences of literals, one
    greedy repetition of a one-character class, and possibly [$].  The
    matcher is the usual backtracking one: a repetition first takes as many
    characters as it can and gives them back one at a time while the rest of
    the pattern fails. *)

Inductive atom : Type :=
| Lit (c : ascii)               (* an ordinary or escaped character *)
| Star (cls : ascii -> bool)    (* [X*], greedy *)
| Plus1 (cls : ascii -> bool)   (* [(X+)], greedy, captured as group 1 *)
| Eos.                          (* [$] without MULTILINE *)

Definition pattern : Type := list atom.

(** [.] without DOTALL: any character except a newline. *)
Definition dot (c : ascii) : bool := negb (Ascii.eqb c newline).

(** [[0-9]] *)
Definition digit (c : ascii) : bool :=
  let n := nat_of_ascii c in (48 <=? n)%nat && (n <=? 57)%nat.

Definition lits (s : string) : pattern := map Lit (str s).

(** [$] matches at the end of the string and just before a newline that is
    the last character of the string. *)
Definition at_end (s : pystr) : bool :=
  match s with
  | [] => true
  | [c] => Ascii.eqb c newline
  | _ => false
  end.

Section Greedy.
Variable R : Type.
Variable cls : ascii -> bool.

(** [greedy s k] offers to the continuation [k] every split of [s] into a
    run of [cls] characters and a rest, the longest run first. *)
Fixpoint greedy (s : pystr) (k : pystr -> pystr -> option R) : option R :=
  match s with
  | c :: s' =>
      if cls c then
        match greedy s' (fun taken rest => k (c :: taken) rest) with
        | Some r => Some r
        | None => k [] s
        end
      else k [] s
  | [] => k [] s
  end.
End Greedy.

(** [match_here p g s]: match [p] at the start of [s]; the result is the text
    of group 1 ([g] as long as the group has not taken part). *)
Fixpoint match_here (p : pattern) (g : pystr) (s : pystr) : option pystr :=
  match p with
  | [] => Some g
  | Lit c :: p' =>
      match s with
      | c' :: s' => if Ascii.eqb c c' then match_here p' g s' else None
      | [] => None
      end
  | Star cls :: p' => greedy cls s (fun _ rest => match_here p' g rest)
  | Plus1 cls :: p' =>
      greedy cls s (fun taken rest =>
        match taken with
        | [] => None
        | _ :: _ => match_here p' taken rest
        end)
  | Eos :: p' => if at_end s then match_here p' g s else None
  end.

(** [re.match]: anchored at the start of the string. *)
Definition re_match (p : pattern) (s : pystr) : option pystr :=
  match_here p [] s.

(** [re.search]: the leftmost position at which the pattern matches. *)
Fixpoint re_search (p : pattern) (s : pystr) : option pystr :=
  match match_here p [] s with
  | Some g => Some g
  | None =>
      match s with
      | [] => None
      | _ :: s' => re_search p s'
      end
  end.

(** [int] on a run of ASCII digits. *)
Definition digit_val (c : ascii) : Z := Z.of_nat (nat_of_ascii c) - 48.

Definition int_of_digits (s : pystr) : Z :=
  fold_left (fun acc c => 10 * acc + digit_val c)%Z s 0%Z.

(* ================================================================= *)
(** ** [os.path] *)

(** [s.endswith(suffix)] *)
Definition endswith (s suffix : pystr) : bool :=
  startswith (rev s) (rev suffix).

(** [os.path.join(a, b)] of [posixpath], for two components: an absolute
    [b] replaces [a]; otherwise a separator is put between them unless [a] is
    empty or already ends with one. *)
Definition path_join (a b : pystr) : pystr :=
  if startswith b [slash] then b
  else if match a with [] => true | _ :: _ => endswith a [slash] end then a ++ b
  else a ++ slash :: b.

(** [os.path.basename]: what follows the last slash. *)
Fixpoint basename (p : pystr) : pystr :=
  match p with
  | [] => []
  | c :: p' =>
      if existsb (Ascii.eqb slash) p' then basename p'
      else if Ascii.eqb c slash then p' else p
  end.

(* ================================================================= *)
(** ** [sorted(xs, key=...)]

    Python's [sorted] is stable. It is modelled by the stable insertion sort;
    [sorted_unique] below shows that any stable sort returns the same list. *)

Section Sorted.
Variable A : Type.
Variable key : A -> Z.

Fixpoint insert_by (x : A) (l : list A) : list A :=
  match l with
  | [] => [x]
  | y :: l' =>
      if (key x <=? key y)%Z then x :: y :: l' else y :: insert_by x l'
  end.

Definition sorted (l : list A) : list A := fold_right insert_by [] l.

(** Non-decreasing in the key. *)
Definition key_le (x y : A) : Prop := (key x <= key y)%Z.

Definition has_key (k : Z) (x : A) : bool := (key x =? k)%Z.
End Sorted.

(* ================================================================= *)
(** ** The artifact locator, [get_all_slice_htmls] *)

Definition DATA_DIR : pystr := str "data".

(** [r"slice_z=.*mm\.html$"] *)
Definition slice_html_re : pattern :=
  lits "slice_z=" ++ [Star dot] ++ lits "mm" ++ [Lit "."%char] ++ lits "html" ++ [Eos].

(** [r"slice_z=([0-9]+)mm"] *)
Definition slice_key_re : pattern :=
  lits "slice_z=" ++ [Plus1 digit] ++ lits "mm".

Definition is_some {A : Type} (o : option A) : bool :=
  match o with Some _ => true | None => false end.

Definition z_key (f : pystr) : Z :=
  match re_search slice_key_re f with
  | Some g => int_of_digits g
  | None => 0%Z
  end.

(** The test of line 28. *)
Definition is_slice_html (fname : pystr) : bool :=
  is_some (re_match slice_html_re fname).

(** The [for] loop of lines 27-29 over an enumeration of the directory. *)
Fixpoint collect (data_dir : pystr) (names : list pystr) : list pystr :=
  match names with
  | [] => []
  | fname :: names' =>
      if is_slice_html fname
      then path_join data_dir fname :: collect data_dir names'
      else collect data_dir names'
  end.

(** The file system is what [os.listdir] answers: the enumeration of a
    directory, in the order the system gives it, or an exception. *)
Definition filesystem : Type := pystr -> result (list pystr).

Definition get_all_slice_htmls (listdir : filesystem) (data_dir : pystr)
  : result (list pystr) :=
  names <- listdir data_dir ;;
  Ok (sorted z_key (collect data_dir names)).

(** Line 44. *)
Definition slice_file_names (slice_files : list pystr) : list pystr :=
  map basename slice_files.

(** A directory holding exactly the given names. *)
Definition single_dir (d : pystr) (names : list pystr) : filesystem :=
  fun p => if pystr_eqb p d then Ok names else Raise FileNotFoundError.

(* ================================================================= *)
(** ** The fragment of pandas that the program uses

    A numeric cell is a number or the missing value; a column is the list of
    its cells in row order; a table read by [pd.read_csv] is the list of its
    named columns in file order, indexed by row position. Columns of text or
    of booleans are outside this model: every statement about a table below
    is a statement about a table of numeric columns. *)

Inductive cell : Type :=
| NaN
| Num (q : Q).

Definition Series : Type := list cell.

Definition DataFrame : Type := list (pystr * Series).

Definition df_columns (df : DataFrame) : list pystr := map fst df.

Definition nrows (df : DataFrame) : nat :=
  match df with
  | [] => 0
  | c :: _ => length (snd c)
  end.

(** All the columns of a table have the same number of rows. *)
Definition well_formed (df : DataFrame) : bool :=
  forallb (fun c => length (snd c) =? nrows df)%nat df.

(** [df[name]] *)
Definition getitem (df : DataFrame) (name : pystr) : result Series :=
  match find (fun c => pystr_eqb (fst c) name) df with
  | Some c => Ok (snd c)
  | None => Raise KeyError
  end.

(** [name in df.columns] *)
Definition has_column (df : DataFrame) (name : pystr) : bool :=
  existsb (fun c => pystr_eqb c name) (df_columns df).

(** [s.iloc[i]] *)
Definition iloc (s : Series) (i : nat) : result cell :=
  match nth_error s i with
  | Some c => Ok c
  | None => Raise IndexError
  end.

(** [df.loc[i, name]] on the default index. *)
Definition loc (df : DataFrame) (i : nat) (name : pystr) : result cell :=
  s <- getitem df name ;;
  match nth_error s i with
  | Some c => Ok c
  | None => Raise KeyError
  end.

(** The reductions skip missing values. *)
Fixpoint dropna (s : Series) : list Q :=
  match s with
  | [] => []
  | NaN :: s' => dropna s'
  | Num q :: s' => q :: dropna s'
  end.

Definition qmax (a b : Q) : Q := if Qle_bool b a then a else b.

(** [s.max()]: missing when there is no value. *)
Definition series_max (s : Series) : cell :=
  match dropna s with
  | [] => NaN
  | x :: xs => Num (fold_left qmax xs x)
  end.

(** [s.idxmax()]: a scan from the first row that keeps the best position so
    far and moves only to a strictly larger value. *)
Fixpoint argmax_from (i : nat) (best : nat * Q) (s : Series) : nat * Q :=
  match s with
  | [] => best
  | NaN :: s' => argmax_from (S i) best s'
  | Num q :: s' =>
      if Qle_bool q (snd best) then argmax_from (S i) best s'
      else argmax_from (S i) (i, q) s'
  end.

Fixpoint argmax (i : nat) (s : Series) : option (nat * Q) :=
  match s with
  | [] => None
  | NaN :: s' => argmax (S i) s'
  | Num q :: s' => Some (argmax_from (S i) (i, q) s')
  end.

(** An empty column raises [ValueError]; so does, in current pandas, a
    column holding only missing values (older versions answer the missing
    value, on which the lookup that follows raises). *)
Definition idxmax (s : Series) : result nat :=
  match argmax 0 s with
  | Some (i, _) => Ok i
  | None => Raise ValueError
  end.

(* ================================================================= *)
(** ** Eccentricity and angle, lines 126-133 and 136-145 *)

(** The test of the comprehension on line 127. *)
Definition is_centroid_x (col : pystr) : bool :=
  contains (str "centroid") (lower col) && contains (str "x") (lower col).

(** Lines 126-128. *)
Definition bottom_reference (df : DataFrame) : result (cell * cell) :=
  h <- getitem df (str "Height_mm") ;;
  z_ref <- iloc h 0 ;;
  let x_col := filter is_centroid_x (df_columns df) in
  x_ref <- match x_col with
           | c0 :: _ => (xs <- getitem df c0 ;; iloc xs 0)
           | [] => Ok (Num 0)
           end ;;
  Ok (z_ref, x_ref).

Definition angle_col : pystr := str "angle_from_bottom_deg".

Record Extremum : Type := mkExtremum {
  max_ecc : cell;
  max_ecc_idx : nat;
  max_ecc_z : cell;
  max_ecc_angle : option cell   (* [None] is Python's [None] *)
}.

(** Lines 129-133. *)
Definition eccentricity_extremum (df : DataFrame) : result Extremum :=
  e1 <- getitem df (str "eccentricity_mm") ;;
  let m := series_max e1 in
  e2 <- getitem df (str "eccentricity_mm") ;;
  i <- idxmax e2 ;;
  z <- loc df i (str "Height_mm") ;;
  a <- (if has_column df angle_col
        then (v <- loc df i angle_col ;; Ok (Some v))
        else Ok None) ;;
  Ok (mkExtremum m i z a).

(** Lines 136-145 put the five values through a float format. The cells of
    a numeric table (numbers and the missing value) all pass these formats;
    [None], the angle of a table without angle column, does not: [.6f] on
    [None] raises [TypeError]. *)
Definition render_extremum (b : cell * cell) (e : Extremum) : result unit :=
  match max_ecc_angle e with
  | Some _ => Ok tt
  | None => Raise TypeError
  end.

(** The whole block, as it runs. *)
Definition eccentricity_section (df : DataFrame) : result (cell * cell * Extremum) :=
  b <- bottom_reference df ;;
  e <- eccentricity_extremum df ;;
  _ <- render_extremum b e ;;
  Ok (b, e).

Definition col (name : string) (vals : list Q) : pystr * Series :=
  (str name, map Num vals).

(* ================================================================= *)
(** ** The session flag, lines 52-61

    [st.session_state] is a dictionary that outlives the reruns of the
    script; the program keeps one boolean in it. *)

Definition session_state : Type := list (pystr * bool).

(** [st.get(k)]; [k in st] is whether it answers something. *)
Fixpoint ss_get (st : session_state) (k : pystr) : option bool :=
  match st with
  | [] => None
  | (k', v) :: st' => if pystr_eqb k' k then Some v else ss_get st' k
  end.

(** [st[k] = v]: the value of an existing key is replaced, a new key is
    added. *)
Fixpoint ss_set (st : session_state) (k : pystr) (v : bool) : session_state :=
  match st with
  | [] => [(k, v)]
  | (k', v') :: st' =>
      if pystr_eqb k' k then (k', v) :: st' else (k', v') :: ss_set st' k v
  end.

Definition RUN_PIPELINE : pystr := str "run_pipeline".

(** Lines 52-59: the key is created on the first run, and a press of the
    button sets it. *)
Definition update_session (pressed : bool) (st : session_state) : session_state :=
  let st1 := if is_some (ss_get st RUN_PIPELINE) then st
             else ss_set st RUN_PIPELINE false in
  if pressed then ss_set st1 RUN_PIPELINE true else st1.

(** Line 61: [st.session_state.get('run_pipeline', False)]. *)
Definition shows_results (st : session_state) : bool :=
  match ss_get st RUN_PIPELINE with
  | Some b => b
  | None => false
  end.

(** One run of the script: the state it leaves and whether it renders the
    results rather than the invitation of line 172. *)
Definition script_run (pressed : bool) (st : session_state) : session_state * bool :=
  let st' := update_session pressed st in (st', shows_results st').

(** The successive runs of one session, each with the state of the button. *)
Fixpoint session (presses : list bool) (st : session_state) : list bool :=
  match presses with
  | [] => []
  | p :: presses' =>
      let (st', shown) := script_run p st in shown :: session presses' st'
  end.

(* ================================================================= *)
(** ** The slice viewer, lines 38-40 and 66-88 *)

(** [load_text_html]: the text of the file, or what opening and reading it
    raises. *)
Definition load_text_html (read : pystr -> result pystr) (path : pystr)
  : result pystr :=
  read path.

(** [xs.index(x)]: the first position of [x], or [ValueError]. *)
Fixpoint list_index (x : pystr) (xs : list pystr) : result nat :=
  match xs with
  | [] => Raise ValueError
  | y :: xs' =>
      if pystr_eqb y x then Ok 0%nat
      else (i <- list_index x xs' ;; Ok (S i))
  end.

(** [xs[i]] *)
Definition list_get (xs : list pystr) (i : nat) : result pystr :=
  match nth_error xs i with
  | Some x => Ok x
  | None => Raise IndexError
  end.

(** [\d]: among the 8-bit characters of this model the decimal digits are
    [0] to [9]. Python's [\d] also accepts the decimal digits of other
    scripts, which these characters cannot denote: the subheader is modelled
    for names without such digits. *)
Definition decimal (c : ascii) : bool := digit c.

(** [r"slice_z=(\d+)mm"], line 75. *)
Definition slice_title_re : pattern :=
  lits "slice_z=" ++ [Plus1 decimal] ++ lits "mm".

(** Lines 75-79: the text of the subheader. *)
Definition slice_subheader (selected : pystr) : pystr :=
  match re_search slice_title_re selected with
  | Some g => str "Slice z=" ++ g ++ str " mm"
  | None => str "Slice: " ++ selected
  end.

Record SliceView : Type := mkSliceView {
  subheader : pystr;        (* line 77 or 79 *)
  html_content : pystr;     (* line 81 *)
  download_label : pystr;   (* line 85 *)
  download_data : pystr;
  download_name : pystr
}.

(** Lines 66-88, for the option [selected] that the select box answers;
    [None] stands for the notice of line 88. *)
Definition slice_viewer (read : pystr -> result pystr)
    (slice_files slice_file_names : list pystr) (selected : pystr)
  : result (option SliceView) :=
  match slice_files with
  | [] => Ok None
  | _ :: _ =>
      idx <- list_index selected slice_file_names ;;
      path <- list_get slice_files idx ;;
      html <- load_text_html read path ;;
      Ok (Some (mkSliceView (slice_subheader selected) html
                  (str "Download " ++ selected) html selected))
  end.

(* ================================================================= *)
(** ** Vocabulary of the statements *)

Fixpoint take_while (cls : ascii -> bool) (s : pystr) : pystr :=
  match s with
  | c :: s' => if cls c then c :: take_while cls s' else []
  | [] => []
  end.

Fixpoint drop_while (cls : ascii -> bool) (s : pystr) : pystr :=
  match s with
  | c :: s' => if cls c then drop_while cls s' else s
  | [] => []
  end.

(** No newline character, no path separator. *)
Definition no_newline (s : pystr) : bool := forallb dot s.

Definition no_slash (s : pystr) : bool :=
  forallb (fun c => negb (Ascii.eqb c slash)) s.

(** What [os.path.join] puts in front of a relative name. *)
Definition dir_prefix (d : pystr) : pystr :=
  if match d with [] => true | _ :: _ => endswith d [slash] end
  then d else d ++ [slash].

(** The names the filter of line 28 lets through, newline apart:
    [slice_z=], anything, [mm.html]. *)
Definition html_slice_name (f : pystr) : Prop :=
  exists mid, f = str "slice_z=" ++ mid ++ str "mm.html".

(** The pattern as the specification words it: [slice_z=], at least one
    digit, [mm.], any extension. *)
Definition spec_slice_name (f : pystr) : Prop :=
  exists ds ext,
    ds <> [] /\ forallb digit ds = true /\
    f = str "slice_z=" ++ ds ++ str "mm." ++ ext.

(** The directory of the specification's example. *)
Definition example_names : list pystr :=
  [str "slice_z=100mm.html"; str "readme.txt"; str "slice_z=50mm.html"].

(** The first column, in table order, that passes the test of line 127. *)
Definition first_centroid_x (df : DataFrame) : option (pystr * Series) :=
  find (fun c => is_centroid_x (fst c)) df.

(** The tables of the specification's examples. *)
Definition ecc_example : DataFrame :=
  [col "Height_mm" [0; 10; 20]; col "eccentricity_mm" [1; 5; 5]].

Definition bottom_example : DataFrame :=
  [col "Height_mm" [0]; col "Centroid_X" [35 # 10]].

(** [f] holds, at offset [length pre], the text [slice_z=<g>mm] with [g] a
    non-empty run of digits. *)
Definition height_run_at (f pre g : pystr) : Prop :=
  exists post,
    f = pre ++ str "slice_z=" ++ g ++ str "mm" ++ post /\
    g <> [] /\ forallb digit g = true.

(** No digit run can be extracted from [f]. *)
Definition no_height_run (f : pystr) : Prop :=
  forall pre g, ~ height_run_at f pre g.



(* ================================================================= *)
(** * Properties *)

(** ** The stable sort *)

Section SortedFacts.
Variable A : Type.
Variable key : A -> Z.

Lemma insert_by_perm (x : A) (l : list A) :
  Permutation (x :: l) (insert_by key x l).
Proof.
  induction l as [|y l IH]; simpl.
  - apply Permutation_refl.
  - destruct (key x <=? key y)%Z.
    + apply Permutation_refl.
    + eapply perm_trans; [apply perm_swap|].
      now apply perm_skip.
Qed.

Lemma sorted_perm (l : list A) : Permutation l (sorted key l).
Proof.
  induction l as [|x l IH]; simpl.
  - constructor.
  - eapply perm_trans; [apply perm_skip, IH|].
    apply insert_by_perm.
Qed.

Lemma insert_by_sorted (x : A) (l : list A) :
  StronglySorted (key_le key) l ->
  StronglySorted (key_le key) (insert_by key x l).
Proof.
  induction 1 as [|y l Hs IH Hall]; simpl.
  - repeat constructor.
  - destruct (Z.leb_spec (key x) (key y)) as [Hle|Hgt].
    + constructor; [now constructor|].
      constructor; [exact Hle|].
      eapply Forall_impl; [|exact Hall].
      unfold key_le; intros; lia.
    + constructor; [exact IH|].
      eapply Permutation_Forall; [apply insert_by_perm|].
      constructor; [unfold key_le; lia|exact Hall].
Qed.

Lemma sorted_sorted (l : list A) : StronglySorted (key_le key) (sorted key l).
Proof.
  induction l as [|x l IH]; simpl.
  - constructor.
  - now apply insert_by_sorted.
Qed.

(** Insertion never moves an element past one of the same key. *)
Lemma insert_by_filter (k : Z) (x : A) (l : list A) :
  filter (has_key key k) (insert_by key x l) = filter (has_key key k) (x :: l).
Proof.
  induction l as [|y l IH]; [reflexivity|].
  cbn [insert_by].
  destruct (Z.leb_spec (key x) (key y)) as [Hle|Hgt]; [reflexivity|].
  cbn [filter] in *. rewrite IH. unfold has_key.
  destruct (Z.eqb_spec (key x) k) as [Hx|Hx]; [|reflexivity].
  destruct (Z.eqb_spec (key y) k) as [Hy|Hy]; [lia|reflexivity].
Qed.

Lemma sorted_stable (k : Z) (l : list A) :
  filter (has_key key k) (sorted key l) = filter (has_key key k) l.
Proof.
  induction l as [|x l IH]; [reflexivity|].
  cbn [sorted fold_right]. fold (sorted key l).
  rewrite insert_by_filter. cbn [filter]. now rewrite IH.
Qed.

(** In a list sorted by key, a smaller key comes at a smaller position. *)
Lemma sorted_positions (l : list A) :
  StronglySorted (key_le key) l ->
  forall i j a b,
    nth_error l i = Some a -> nth_error l j = Some b ->
    (key a < key b)%Z -> (i < j)%nat.
Proof.
  induction 1 as [|y l Hs IH Hall]; intros i j a b Hi Hj Hlt.
  - destruct i; discriminate.
  - destruct i as [|i], j as [|j]; cbn in Hi, Hj.
    + injection Hi as ->. injection Hj as ->. lia.
    + lia.
    + injection Hj as ->.
      apply nth_error_In in Hi.
      rewrite Forall_forall in Hall. specialize (Hall _ Hi).
      unfold key_le in Hall. lia.
    + apply -> Nat.succ_lt_mono. eauto.
Qed.

Lemma sorted_positions_le (l : list A) :
  StronglySorted (key_le key) l ->
  forall i j a b,
    nth_error l i = Some a -> nth_error l j = Some b ->
    (i < j)%nat -> (key a <= key b)%Z.
Proof.
  induction 1 as [|y l Hs IH Hall]; intros i j a b Hi Hj Hlt.
  - destruct i; discriminate.
  - destruct j as [|j]; [lia|]. cbn in Hj. destruct i as [|i]; cbn in Hi.
    + injection Hi as ->. apply nth_error_In in Hj.
      rewrite Forall_forall in Hall. now apply Hall.
    + apply (IH i j); auto. lia.
Qed.

(** Two lists sorted by key that agree on every class of equal keys are
    the same list: a stable sort has one possible result. *)
Lemma sorted_by_classes (l1 l2 : list A) :
  StronglySorted (key_le key) l1 ->
  StronglySorted (key_le key) l2 ->
  (forall k, filter (has_key key k) l1 = filter (has_key key k) l2) ->
  l1 = l2.
Proof.
  intros H1. revert l2.
  induction H1 as [|a l1 Hs1 IH Hall1]; intros l2 H2 Hf.
  - destruct l2 as [|b l2]; [reflexivity|].
    specialize (Hf (key b)). cbn in Hf. unfold has_key in Hf.
    rewrite Z.eqb_refl in Hf. discriminate.
  - destruct H2 as [|b l2 Hs2 Hall2].
    + specialize (Hf (key a)). cbn in Hf. unfold has_key in Hf.
      rewrite Z.eqb_refl in Hf. discriminate.
    + assert (Hab : key a = key b).
      { assert (Ha : In a (filter (has_key key (key a)) (b :: l2))).
        { rewrite <- Hf. cbn. unfold has_key at 1. rewrite Z.eqb_refl. now left. }
        assert (Hb : In b (filter (has_key key (key b)) (a :: l1))).
        { rewrite Hf. cbn. unfold has_key at 1. rewrite Z.eqb_refl. now left. }
        apply filter_In in Ha. apply filter_In in Hb.
        destruct Ha as [Ha _], Hb as [Hb _].
        rewrite Forall_forall in Hall1, Hall2. unfold key_le in *.
        destruct Ha as [<-|Ha]; [reflexivity|].
        destruct Hb as [->|Hb]; [reflexivity|].
        specialize (Hall1 _ Hb). specialize (Hall2 _ Ha). lia. }
      assert (Ea : has_key key (key a) a = true)
        by (unfold has_key; apply Z.eqb_refl).
      assert (Eb : has_key key (key a) b = true)
        by (unfold has_key; rewrite Hab; apply Z.eqb_refl).
      assert (Hhead := Hf (key a)). cbn [filter] in Hhead.
      rewrite Ea, Eb in Hhead.
      injection Hhead as <- Htail.
      f_equal. apply IH; [exact Hs2|].
      intros k. specialize (Hf k). cbn in Hf.
      destruct (has_key key k a); [now injection Hf|exact Hf].
Qed.

Lemma sorted_unique (l l' : list A) :
  StronglySorted (key_le key) l' ->
  (forall k, filter (has_key key k) l' = filter (has_key key k) l) ->
  l' = sorted key l.
Proof.
  intros Hs Hf. apply sorted_by_classes; [exact Hs|apply sorted_sorted|].
  intros k. now rewrite sorted_stable.
Qed.
End SortedFacts.

(** ** Strings *)

Lemma startswith_iff (hay needle : pystr) :
  startswith hay needle = true <-> exists rest, hay = needle ++ rest.
Proof.
  revert hay. induction needle as [|n needle IH]; intros hay; cbn.
  - split; [intros _; now exists hay|reflexivity].
  - destruct hay as [|h hay].
    + split; [discriminate|intros [rest H]; discriminate].
    + rewrite andb_true_iff, Ascii.eqb_eq, IH. split.
      * intros [-> [rest ->]]. now exists rest.
      * intros [rest H]. injection H as -> ->. split; [reflexivity|now exists rest].
Qed.

Lemma startswith_app (needle rest : pystr) :
  startswith (needle ++ rest) needle = true.
Proof. apply startswith_iff. now exists rest. Qed.

Lemma skipn_length_app (a b : pystr) : skipn (length a) (a ++ b) = b.
Proof. induction a; cbn; auto. Qed.

Lemma contains_iff (needle hay : pystr) :
  contains needle hay = true <-> exists pre post, hay = pre ++ needle ++ post.
Proof.
  induction hay as [|h hay IH]; cbn [contains]; rewrite orb_true_iff, startswith_iff.
  - split.
    + intros [[rest H]|H]; [|discriminate]. now exists [], rest.
    + intros [pre [post H]]. left. exists post.
      destruct pre; [exact H|discriminate].
  - rewrite IH. split.
    + intros [[rest H]|[pre [post H]]].
      * now exists [], rest.
      * exists (h :: pre), post. cbn. now rewrite H.
    + intros [[|c pre] [post H]].
      * left. now exists post.
      * right. injection H as -> ->. now exists pre, post.
Qed.

(** ** The matcher *)

Lemma match_here_lits (l : pystr) (p : pattern) (g s : pystr) :
  match_here (map Lit l ++ p) g s =
  if startswith s l then match_here p g (skipn (length l) s) else None.
Proof.
  revert s. induction l as [|c l IH]; intros s; cbn.
  - reflexivity.
  - destruct s as [|c' s]; [reflexivity|].
    destruct (Ascii.eqb c c'); cbn; [apply IH|reflexivity].
Qed.

Section GreedyFacts.
Variable R : Type.
Variable cls : ascii -> bool.

(** A greedy repetition succeeds exactly when some split of the text into
    a run of the class and a rest satisfies the continuation. *)
Lemma greedy_is_some (s : pystr) (k : pystr -> pystr -> option R) :
  is_some (greedy cls s k) = true <->
  exists t r, s = t ++ r /\ forallb cls t = true /\ is_some (k t r) = true.
Proof.
  revert k. induction s as [|c s IH]; intros k; cbn [greedy].
  - split.
    + intros H. now exists [], [].
    + intros [t [r [E [_ H]]]].
      symmetry in E. apply app_eq_nil in E. destruct E as [-> ->]. exact H.
  - destruct (cls c) eqn:Hc.
    + specialize (IH (fun taken rest => k (c :: taken) rest)).
      destruct (greedy cls s (fun taken rest => k (c :: taken) rest)) as [x|].
      * split; [intros _|reflexivity].
        destruct (proj1 IH eq_refl) as [t [r [-> [Ht Hk]]]].
        exists (c :: t), r. cbn. now rewrite Hc.
      * split.
        -- intros H. now exists [], (c :: s).
        -- intros [[|c' t] [r [E [Ht Hk]]]].
           ++ cbn in E. now subst r.
           ++ injection E as <- ->. cbn in Ht. rewrite Hc in Ht.
              assert (F : is_some (@None R) = true); [|discriminate].
              apply IH. now exists t, r.
    + split.
      * intros H. now exists [], (c :: s).
      * intros [[|c' t] [r [E [Ht Hk]]]].
        -- cbn in E. now subst r.
        -- injection E as <- ->. cbn in Ht. rewrite Hc in Ht. discriminate.
Qed.

(** When the continuation refuses every rest that begins with a character
    of the class, only the longest run can succeed. *)
Lemma greedy_longest (s : pystr) (k : pystr -> pystr -> option R) :
  (forall t c r, cls c = true -> k t (c :: r) = None) ->
  greedy cls s k = k (take_while cls s) (drop_while cls s).
Proof.
  revert k. induction s as [|c s IH]; intros k Hk; cbn.
  - reflexivity.
  - destruct (cls c) eqn:Hc; [|reflexivity].
    rewrite IH by (intros; now apply Hk).
    destruct (k (c :: take_while cls s) (drop_while cls s)); [reflexivity|].
    now apply Hk.
Qed.

Lemma take_drop_while (s : pystr) : take_while cls s ++ drop_while cls s = s.
Proof.
  induction s as [|c s IH]; cbn; [reflexivity|].
  destruct (cls c); cbn; [now rewrite IH|reflexivity].
Qed.

Lemma take_while_all (s : pystr) : forallb cls (take_while cls s) = true.
Proof.
  induction s as [|c s IH]; cbn; [reflexivity|].
  destruct (cls c) eqn:Hc; cbn; [now rewrite Hc|reflexivity].
Qed.

Lemma take_while_run (t r : pystr) :
  forallb cls t = true ->
  match r with [] => True | c :: _ => cls c = false end ->
  take_while cls (t ++ r) = t /\ drop_while cls (t ++ r) = r.
Proof.
  intros Ht Hr. induction t as [|c t IH]; cbn in *.
  - destruct r as [|c r]; cbn; [now split|]. now rewrite Hr.
  - apply andb_true_iff in Ht. destruct Ht as [Hc Ht]. rewrite Hc.
    destruct (IH Ht) as [-> ->]. now split.
Qed.
End GreedyFacts.

Lemma re_search_None (p : pattern) (f : pystr) :
  re_search p f = None <->
  forall pre suf, f = pre ++ suf -> match_here p [] suf = None.
Proof.
  induction f as [|a f IH]; cbn [re_search].
  - destruct (match_here p [] []) eqn:E.
    + split; [discriminate|].
      intros H. specialize (H [] [] eq_refl). congruence.
    + split; [|reflexivity].
      intros _ pre suf E'. symmetry in E'. apply app_eq_nil in E'.
      destruct E' as [_ ->]. exact E.
  - destruct (match_here p [] (a :: f)) eqn:E.
    + split; [discriminate|].
      intros H. specialize (H [] (a :: f) eq_refl). congruence.
    + rewrite IH. split.
      * intros H [|c pre] suf E'.
        -- cbn in E'. now subst suf.
        -- injection E' as _ E'. now apply (H pre).
      * intros H pre suf ->. now apply (H (a :: pre) suf).
Qed.

Lemma re_search_Some (p : pattern) (f g : pystr) :
  re_search p f = Some g ->
  exists pre suf,
    f = pre ++ suf /\ match_here p [] suf = Some g /\
    forall pre' suf', f = pre' ++ suf' -> (length pre' < length pre)%nat ->
                      match_here p [] suf' = None.
Proof.
  induction f as [|a f IH]; cbn [re_search].
  - destruct (match_here p [] []) eqn:E; [|discriminate].
    intros [= ->]. exists [], []. repeat split; [exact E|].
    intros pre' suf' _ Hlt. cbn in Hlt. lia.
  - destruct (match_here p [] (a :: f)) eqn:E.
    + intros [= ->]. exists [], (a :: f). repeat split; [exact E|].
      intros pre' suf' _ Hlt. cbn in Hlt. lia.
    + intros H. destruct (IH H) as [pre [suf [-> [Hm Hleft]]]].
      exists (a :: pre), suf. repeat split; [exact Hm|].
      intros [|c pre'] suf' E' Hlt.
      * cbn in E'. now subst suf'.
      * injection E' as _ E'. apply (Hleft pre' suf' E'). cbn in Hlt. lia.
Qed.

(** ** The two patterns of the locator *)

Lemma at_end_iff (s : pystr) : at_end s = true <-> s = [] \/ s = [newline].
Proof.
  destruct s as [|c [|c' s]]; cbn.
  - tauto.
  - rewrite Ascii.eqb_eq. split.
    + intros ->. now right.
    + intros [H|H]; [discriminate|now injection H].
  - split; [discriminate|intros [H|H]; discriminate].
Qed.

(** [slice_z=.*mm\.html$] accepts [slice_z=], a newline-free middle,
    [mm.html], and then the end of the text or one last newline. *)
Lemma is_slice_html_iff (s : pystr) :
  is_slice_html s = true <->
  exists mid, no_newline mid = true /\
    (s = str "slice_z=" ++ mid ++ str "mm.html" \/
     s = str "slice_z=" ++ mid ++ str "mm.html" ++ [newline]).
Proof.
  unfold is_slice_html, re_match.
  change slice_html_re
    with (map Lit (str "slice_z=") ++ Star dot :: (map Lit (str "mm.html") ++ [Eos])).
  rewrite match_here_lits.
  destruct (startswith s (str "slice_z=")) eqn:Hs.
  - apply startswith_iff in Hs. destruct Hs as [s' ->].
    rewrite skipn_length_app. cbn [match_here].
    rewrite greedy_is_some. split.
    + intros [t [r [-> [Ht Hk]]]]. exists t. split; [exact Ht|].
      rewrite match_here_lits in Hk.
      destruct (startswith r (str "mm.html")) eqn:Hr; [|discriminate].
      apply startswith_iff in Hr. destruct Hr as [r' ->].
      rewrite skipn_length_app in Hk. cbn [match_here] in Hk.
      destruct (at_end r') eqn:He; [|discriminate].
      apply at_end_iff in He. destruct He as [-> | ->].
      * left. now rewrite app_nil_r.
      * now right.
    + intros [mid [Hmid H]].
      assert (E : exists r', (r' = [] \/ r' = [newline]) /\
                            s' = mid ++ str "mm.html" ++ r').
      { destruct H as [H|H]; apply app_inv_head in H; subst s'.
        - exists []. split; [now left|]. now rewrite app_nil_r.
        - exists [newline]. split; [now right|reflexivity]. }
      destruct E as [r' [Hr' ->]].
      exists mid, (str "mm.html" ++ r'). repeat split; [exact Hmid|].
      rewrite match_here_lits, startswith_app, skipn_length_app.
      cbn [match_here]. now rewrite (proj2 (at_end_iff r') Hr').
  - split; [discriminate|].
    intros [mid [_ H]].
    assert (F : startswith s (str "slice_z=") = true); [|congruence].
    apply startswith_iff. destruct H as [-> | ->]; eauto.
Qed.

Lemma no_newline_app (a b : pystr) :
  no_newline (a ++ b) = no_newline a && no_newline b.
Proof. apply forallb_app. Qed.

(** On a name without newline the filter is: [slice_z=] ... [mm.html]. *)
Lemma is_slice_html_no_newline (s : pystr) :
  no_newline s = true ->
  (is_slice_html s = true <-> html_slice_name s).
Proof.
  intros Hs. rewrite is_slice_html_iff. unfold html_slice_name. split.
  - intros [mid [_ [H|H]]]; [now exists mid|].
    subst s. rewrite !no_newline_app in Hs.
    repeat (apply andb_true_iff in Hs; destruct Hs as [? Hs]). discriminate.
  - intros [mid ->]. exists mid. split; [|now left].
    rewrite !no_newline_app in Hs.
    apply andb_true_iff in Hs. destruct Hs as [_ Hs].
    apply andb_true_iff in Hs. now destruct Hs as [Hs _].
Qed.

Lemma digit_not_m (c : ascii) : digit c = true -> Ascii.eqb "m"%char c = false.
Proof.
  intros H. destruct (Ascii.eqb_spec "m"%char c) as [<-|]; [discriminate|reflexivity].
Qed.

(** [slice_z=([0-9]+)mm] matches at the start of [s] exactly when [s] begins
    with [slice_z=], a non-empty run of digits and [mm]; group 1 is the run. *)
Lemma match_key_iff (s g : pystr) :
  match_here slice_key_re [] s = Some g <-> height_run_at s [] g.
Proof.
  unfold height_run_at.
  change slice_key_re
    with (map Lit (str "slice_z=") ++ Plus1 digit :: (map Lit (str "mm") ++ [])).
  rewrite match_here_lits.
  destruct (startswith s (str "slice_z=")) eqn:Hs.
  - apply startswith_iff in Hs. destruct Hs as [s' ->].
    rewrite skipn_length_app. cbn [match_here].
    rewrite greedy_longest.
    2:{ intros t c r Hc. destruct t; [reflexivity|].
        rewrite match_here_lits. cbn [str list_ascii_of_string startswith].
        now rewrite (digit_not_m _ Hc). }
    split.
    + intros H. exists (skipn 2 (drop_while digit s')).
      destruct (take_while digit s') as [|d t] eqn:Ht; [discriminate|].
      rewrite match_here_lits in H.
      destruct (startswith (drop_while digit s') (str "mm")) eqn:Hd; [|discriminate].
      cbn [match_here] in H. injection H as <-.
      apply startswith_iff in Hd. destruct Hd as [post Hd].
      repeat split.
      * cbn [app]. do 1 f_equal.
        rewrite <- (take_drop_while digit s') at 1.
        rewrite Ht, Hd. change (length (str "mm")) with 2%nat.
        reflexivity.
      * discriminate.
      * rewrite <- Ht. apply take_while_all.
    + intros [post [E [Hne Hg]]]. cbn [app] in E.
      apply app_inv_head in E. subst s'.
      destruct (take_while_run digit g (str "mm" ++ post) Hg eq_refl) as [-> ->].
      destruct g as [|d g]; [congruence|].
      now rewrite match_here_lits, startswith_app, skipn_length_app.
  - split; [discriminate|].
    intros [post [E _]].
    assert (F : startswith s (str "slice_z=") = true); [|congruence].
    apply startswith_iff. cbn [app] in E. eauto.
Qed.

Lemma height_run_at_suffix (pre suf g : pystr) :
  height_run_at (pre ++ suf) pre g <-> height_run_at suf [] g.
Proof.
  unfold height_run_at. split; intros [post [E H]]; exists post; split; auto.
  - now apply app_inv_head in E.
  - cbn [app] in E. now rewrite E.
Qed.

Lemma height_run_at_split (f pre g : pystr) :
  height_run_at f pre g -> exists suf, f = pre ++ suf.
Proof. intros [post [-> _]]. eauto. Qed.

(** The search finds nothing exactly when no digit run can be extracted. *)
Lemma re_search_key_None (f : pystr) :
  re_search slice_key_re f = None <-> no_height_run f.
Proof.
  rewrite re_search_None. unfold no_height_run. split.
  - intros H pre g Hrun.
    destruct (height_run_at_split Hrun) as [suf ->].
    apply height_run_at_suffix, match_key_iff in Hrun.
    rewrite (H pre suf eq_refl) in Hrun. discriminate.
  - intros H pre suf ->.
    destruct (match_here slice_key_re [] suf) as [g|] eqn:E; [|reflexivity].
    apply match_key_iff in E. exfalso. apply (H pre g).
    now apply height_run_at_suffix.
Qed.

(** When it finds something, it is the leftmost digit run. *)
Lemma re_search_key_Some (f g : pystr) :
  re_search slice_key_re f = Some g ->
  exists pre, height_run_at f pre g /\
    forall pre' g', height_run_at f pre' g' -> (length pre <= length pre')%nat.
Proof.
  intros H. destruct (re_search_Some _ _ H) as [pre [suf [-> [Hm Hleft]]]].
  exists pre. split.
  - now apply height_run_at_suffix, match_key_iff.
  - intros pre' g' Hrun.
    destruct (Nat.le_gt_cases (length pre) (length pre')) as [|Hlt]; [assumption|].
    destruct (height_run_at_split Hrun) as [suf' E]. rewrite E in Hrun.
    apply height_run_at_suffix, match_key_iff in Hrun.
    rewrite (Hleft pre' suf' E Hlt) in Hrun. discriminate.
Qed.

Lemma z_key_no_run (f : pystr) : no_height_run f -> z_key f = 0%Z.
Proof.
  intros H. unfold z_key. now rewrite (proj2 (re_search_key_None f) H).
Qed.

(** ** The locator *)

Lemma collect_map (d : pystr) (names : list pystr) :
  collect d names = map (path_join d) (filter is_slice_html names).
Proof.
  induction names as [|f names IH]; cbn; [reflexivity|].
  destruct (is_slice_html f); cbn; now rewrite IH.
Qed.

Lemma get_all_slice_htmls_ok (listdir : filesystem) (d : pystr) (names : list pystr) :
  listdir d = Ok names ->
  get_all_slice_htmls listdir d = Ok (sorted z_key (collect d names)).
Proof. intros H. unfold get_all_slice_htmls. now rewrite H. Qed.

(** A directory entry holds no separator, so joining puts the directory in
    front of it. *)
Lemma path_join_relative (d f : pystr) :
  no_slash f = true -> path_join d f = dir_prefix d ++ f.
Proof.
  intros Hf. unfold path_join, dir_prefix.
  assert (E : startswith f [slash] = false).
  { destruct f as [|c f]; [reflexivity|].
    unfold no_slash in Hf. cbn [forallb] in Hf. cbn [startswith].
    apply andb_true_iff in Hf. destruct Hf as [Hc _].
    apply negb_true_iff in Hc. now rewrite Ascii.eqb_sym, Hc. }
  rewrite E.
  destruct (match d with [] => true | _ :: _ => endswith d [slash] end);
    [reflexivity|].
  now rewrite <- app_assoc.
Qed.

Lemma In_collect (d : pystr) (names : list pystr) (p : pystr) :
  In p (collect d names) <->
  exists f, In f names /\ is_slice_html f = true /\ p = path_join d f.
Proof.
  rewrite collect_map, in_map_iff. split.
  - intros [f [<- Hf]]. apply filter_In in Hf. destruct Hf. eauto.
  - intros [f [Hin [Hm ->]]]. exists f. split; [reflexivity|].
    apply filter_In. now split.
Qed.

Lemma In_locator (d : pystr) (names : list pystr) (f : pystr) :
  (forall f', In f' names -> no_slash f' = true) ->
  In f names ->
  (In (path_join d f) (sorted z_key (collect d names)) <-> is_slice_html f = true).
Proof.
  intros Hnames Hin. split.
  - intros H.
    apply (Permutation_in _ (Permutation_sym (sorted_perm z_key _))) in H.
    apply In_collect in H. destruct H as [f' [Hin' [Hm E]]].
    rewrite !path_join_relative in E by auto.
    apply app_inv_head in E. now subst f'.
  - intros Hm. apply (Permutation_in _ (sorted_perm z_key _)).
    apply In_collect. eauto.
Qed.

(** The joined path is searched from its first character, directory
    included. When the directory holds no [slice_z=<digits>mm] of its own the
    key of the path is the key of the entry: a match cannot start in the
    directory part and reach into the entry, since the separator lies
    between them. *)
Lemma no_slash_app (a b : pystr) : no_slash (a ++ b) = no_slash a && no_slash b.
Proof. apply forallb_app. Qed.

Lemma digits_no_slash (g : pystr) : forallb digit g = true -> no_slash g = true.
Proof.
  intros H. unfold no_slash. rewrite forallb_forall in *. intros c Hc.
  specialize (H c Hc).
  destruct (Ascii.eqb_spec c slash) as [->|]; [discriminate|reflexivity].
Qed.

Lemma dir_prefix_cases (d : pystr) :
  (dir_prefix d = d /\ (d = [] \/ exists d', d = d' ++ [slash])) \/
  dir_prefix d = d ++ [slash].
Proof.
  unfold dir_prefix. destruct d as [|c d]; [left; split; auto|].
  destruct (endswith (c :: d) [slash]) eqn:E; [|now right].
  left. split; [reflexivity|]. right.
  unfold endswith in E. cbn [rev app] in E. apply startswith_iff in E.
  destruct E as [r E]. cbn [app] in E. exists (rev r).
  rewrite <- (rev_involutive (c :: d)). cbn [rev]. now rewrite E.
Qed.

Lemma suffix_ends_with_slash (d pre suf : pystr) :
  d ++ [slash] = pre ++ suf -> suf <> [] -> exists suf', suf = suf' ++ [slash].
Proof.
  intros E Hne. destruct (exists_last Hne) as [suf' [x ->]].
  rewrite app_assoc in E. apply app_inj_tail in E. destruct E as [_ <-].
  now exists suf'.
Qed.

Lemma re_search_skip (p : pattern) (d f : pystr) :
  (forall pre suf, d = pre ++ suf -> suf <> [] -> match_here p [] (suf ++ f) = None) ->
  re_search p (d ++ f) = re_search p f.
Proof.
  induction d as [|c d IH]; intros H; [reflexivity|].
  cbn [app re_search].
  change (c :: d ++ f) with ((c :: d) ++ f).
  rewrite (H [] (c :: d) eq_refl) by discriminate.
  apply IH. intros pre suf -> Hne. now apply (H (c :: pre) suf).
Qed.

Lemma z_key_path_join (d f : pystr) :
  no_height_run d -> no_slash f = true ->
  z_key (path_join d f) = z_key f.
Proof.
  intros Hd Hf. rewrite path_join_relative by exact Hf.
  unfold z_key. rewrite re_search_skip; [reflexivity|].
  intros pre suf E Hne.
  destruct (match_here slice_key_re [] (suf ++ f)) as [g|] eqn:Hm; [|reflexivity].
  exfalso. apply match_key_iff in Hm. destruct Hm as [post [Hm [Hg Hdig]]].
  cbn [app] in Hm.
  assert (Hu : no_slash (str "slice_z=" ++ g ++ str "mm") = true).
  { rewrite !no_slash_app, (digits_no_slash g Hdig). reflexivity. }
  replace (str "slice_z=" ++ g ++ str "mm" ++ post)
    with ((str "slice_z=" ++ g ++ str "mm") ++ post) in Hm
    by now rewrite <- !app_assoc.
  apply app_eq_app in Hm.
  destruct Hm as [l [[Hsuf _]|[Hu' _]]].
  - (* the match lies inside the directory part *)
    subst suf.
    destruct (dir_prefix_cases d) as [[Ed _]|Ed]; rewrite Ed in E.
    + apply (Hd pre g). exists l. repeat split; auto.
      rewrite E. now rewrite <- !app_assoc.
    + destruct l as [|x l].
      * rewrite app_nil_r in E.
        change (str "slice_z=" ++ g ++ str "mm")
          with (str "slice_z=" ++ g ++ str "m" ++ ["m"%char]) in E.
        rewrite !app_assoc in E. apply app_inj_tail in E.
        destruct E as [_ E]. discriminate.
      * assert (Hl : x :: l <> []) by discriminate.
        destruct (exists_last Hl) as [l' [y El]]. rewrite El in E.
        rewrite !app_assoc in E. apply app_inj_tail in E. destruct E as [E _].
        apply (Hd pre g). exists l'. repeat split; auto.
        rewrite E. now rewrite <- !app_assoc.
  - (* the match would reach past the separator *)
    assert (Hs : exists suf', suf = suf' ++ [slash]).
    { destruct (dir_prefix_cases d) as [[Ed [->|[d' ->]]]|Ed]; rewrite Ed in E.
      - symmetry in E. apply app_eq_nil in E. destruct E. congruence.
      - now apply (@suffix_ends_with_slash d' pre suf).
      - now apply (@suffix_ends_with_slash d pre suf). }
    destruct Hs as [suf' ->].
    rewrite Hu', !no_slash_app in Hu. cbn in Hu.
    rewrite andb_false_r in Hu. discriminate.
Qed.

Lemma z_key_in_data_dir (f : pystr) :
  no_slash f = true -> z_key (path_join DATA_DIR f) = z_key f.
Proof.
  apply z_key_path_join. apply re_search_key_None. reflexivity.
Qed.

(** A directory whose own name holds a digit run gives its key to all its
    files, which then keep the order of the enumeration. *)
Example key_of_the_directory :
  get_all_slice_htmls
    (single_dir (str "slice_z=7mm")
       [str "slice_z=20mm.html"; str "slice_z=10mm.html"])
    (str "slice_z=7mm")
  = Ok [str "slice_z=7mm/slice_z=20mm.html"; str "slice_z=7mm/slice_z=10mm.html"].
Proof. reflexivity. Qed.

(** C1, in the form the code supports. For a directory entry without newline character, the
    locator returns the entry, joined to the directory, exactly when its name
    is [slice_z=], any text, [mm.html]: digits are not required between
    [slice_z=] and [mm], and the extension is [html]. Every other entry is
    left out and the scan answers normally. The directory
    [slice_z=100mm.html], [readme.txt], [slice_z=50mm.html] under [data]
    gives [data/slice_z=50mm.html], [data/slice_z=100mm.html], whose base
    names are [slice_z=50mm.html], [slice_z=100mm.html]. *)
Theorem locator_keeps_html_slices
  (listdir : filesystem) (data_dir : pystr) (names : list pystr) (fname : pystr)
  (Hdir : listdir data_dir = Ok names)
  (Hnames : forall f, In f names -> no_slash f = true)
  (Hin : In fname names)
  (Hnl : no_newline fname = true) :
  (exists out,
     get_all_slice_htmls listdir data_dir = Ok out /\
     (In (path_join data_dir fname) out <-> html_slice_name fname)) /\
  get_all_slice_htmls (single_dir DATA_DIR example_names) DATA_DIR
    = Ok [str "data/slice_z=50mm.html"; str "data/slice_z=100mm.html"] /\
  slice_file_names [str "data/slice_z=50mm.html"; str "data/slice_z=100mm.html"]
    = [str "slice_z=50mm.html"; str "slice_z=100mm.html"].
Proof.
  split; [|split; reflexivity].
  exists (sorted z_key (collect data_dir names)). split.
  - now apply get_all_slice_htmls_ok.
  - rewrite (@In_locator data_dir names fname Hnames Hin).
    now apply is_slice_html_no_newline.
Qed.

Lemma locator_keeps_html_slices_witness :
  exists out,
    get_all_slice_htmls (single_dir DATA_DIR example_names) DATA_DIR = Ok out /\
    (In (path_join DATA_DIR (str "readme.txt")) out <->
     html_slice_name (str "readme.txt")).
Proof.
  refine (proj1 (@locator_keeps_html_slices
                   (single_dir DATA_DIR example_names) DATA_DIR example_names
                   (str "readme.txt") _ _ _ _)).
  - reflexivity.
  - intros f [<-|[<-|[<-|[]]]]; reflexivity.
  - simpl. tauto.
  - reflexivity.
Defined.

(** C1 as the specification states it fails: a name with no digit between
    [slice_z=] and [mm] is returned, and a name of the stated shape with
    another extension is not. *)
Lemma locator_keeps_name_without_digits :
  get_all_slice_htmls
    (single_dir DATA_DIR [str "slice_z=abcmm.html"; str "slice_z=50mm.svg"]) DATA_DIR
    = Ok [str "data/slice_z=abcmm.html"] /\
  ~ spec_slice_name (str "slice_z=abcmm.html") /\
  spec_slice_name (str "slice_z=50mm.svg").
Proof.
  split; [reflexivity|]. split.
  - intros [ds [ext [Hne [Hd E]]]].
    destruct ds as [|c ds]; [congruence|].
    cbn in E. injection E as E _. subst c. discriminate.
  - exists (str "50"), (str "svg"). repeat split. discriminate.
Qed.

(** Whatever the directory, the returned list is a rearrangement of the
    collected paths in non-decreasing order of the key that [z_key] reads in
    the joined path. *)
Lemma locator_sorted_by_path_key
  (listdir : filesystem) (data_dir : pystr) (names : list pystr) :
  listdir data_dir = Ok names ->
  exists out,
    get_all_slice_htmls listdir data_dir = Ok out /\
    Permutation (collect data_dir names) out /\
    StronglySorted (key_le z_key) out.
Proof.
  intros Hdir.
  exists (sorted z_key (collect data_dir names)). split; [|split].
  - now apply get_all_slice_htmls_ok.
  - apply sorted_perm.
  - apply sorted_sorted.
Qed.

Lemma digit_val_nonneg (c : ascii) : digit c = true -> (0 <= digit_val c)%Z.
Proof.
  unfold digit, digit_val. intros H. apply andb_true_iff in H.
  destruct H as [H _]. apply Nat.leb_le in H. lia.
Qed.

Lemma fold_digits_nonneg (g : pystr) :
  forall acc, (0 <= acc)%Z -> forallb digit g = true ->
    (0 <= fold_left (fun a c => 10 * a + digit_val c) g acc)%Z.
Proof.
  induction g as [|c g IH]; intros acc Hacc Hg; cbn [fold_left]; [exact Hacc|].
  cbn [forallb] in Hg. apply andb_true_iff in Hg. destruct Hg as [Hc Hg].
  apply IH; [|exact Hg]. assert (H := digit_val_nonneg c Hc). lia.
Qed.

(** A key is never negative, so the fallback key is the least one. *)
Lemma z_key_nonneg (f : pystr) : (0 <= z_key f)%Z.
Proof.
  unfold z_key. destruct (re_search slice_key_re f) as [g|] eqn:E; [|lia].
  destruct (re_search_key_Some _ E) as [pre [[post [_ [_ Hg]]] _]].
  unfold int_of_digits. apply fold_digits_nonneg; [lia|exact Hg].
Qed.

(** C4. A file from which the search of [z_key] can extract no digit run
    between [slice_z=] and [mm] gets the key 0; [z_key] has no other outcome
    than an integer. When the locator has collected such a file it returns
    it, ahead of every file with a positive key and behind none but files of
    key 0. *)
Theorem z_key_fallback (f : pystr) (Hno : no_height_run f) :
  z_key f = 0%Z /\
  forall (listdir : filesystem) (data_dir : pystr) (names : list pystr),
    listdir data_dir = Ok names ->
    In f (collect data_dir names) ->
    exists out,
      get_all_slice_htmls listdir data_dir = Ok out /\
      In f out /\
      (forall i j p,
         nth_error out i = Some f -> nth_error out j = Some p ->
         (0 < z_key p)%Z -> (i < j)%nat) /\
      (forall i j p,
         nth_error out i = Some p -> nth_error out j = Some f ->
         (i < j)%nat -> z_key p = 0%Z).
Proof.
  assert (Hz : z_key f = 0%Z) by now apply z_key_no_run.
  split; [exact Hz|].
  intros listdir data_dir names Hdir Hin.
  assert (Hs := sorted_sorted z_key (collect data_dir names)).
  exists (sorted z_key (collect data_dir names)). split; [|split; [|split]].
  - now apply get_all_slice_htmls_ok.
  - now apply (Permutation_in _ (sorted_perm z_key _)).
  - intros i j p Hi Hj Hp.
    apply (sorted_positions Hs _ _ Hi Hj). lia.
  - intros i j p Hi Hj Hlt.
    assert (H := @sorted_positions_le _ z_key _ Hs i j p f Hi Hj Hlt).
    assert (H0 := z_key_nonneg p). lia.
Qed.

Lemma z_key_fallback_witness :
  z_key (str "data/slice_z=abcmm.html") = 0%Z /\
  forall (listdir : filesystem) (data_dir : pystr) (names : list pystr),
    listdir data_dir = Ok names ->
    In (str "data/slice_z=abcmm.html") (collect data_dir names) ->
    exists out,
      get_all_slice_htmls listdir data_dir = Ok out /\
      In (str "data/slice_z=abcmm.html") out /\
      (forall i j p,
         nth_error out i = Some (str "data/slice_z=abcmm.html") ->
         nth_error out j = Some p ->
         (0 < z_key p)%Z -> (i < j)%nat) /\
      (forall i j p,
         nth_error out i = Some p ->
         nth_error out j = Some (str "data/slice_z=abcmm.html") ->
         (i < j)%nat -> z_key p = 0%Z).
Proof.
  apply (@z_key_fallback (str "data/slice_z=abcmm.html")).
  apply re_search_key_None. reflexivity.
Defined.

(** The fallback at work: the file without digits is returned first. *)
Example z_key_fallback_example :
  get_all_slice_htmls
    (single_dir DATA_DIR
       [str "slice_z=100mm.html"; str "slice_z=abcmm.html"; str "slice_z=50mm.html"])
    DATA_DIR
  = Ok [str "data/slice_z=abcmm.html"; str "data/slice_z=50mm.html";
        str "data/slice_z=100mm.html"].
Proof. reflexivity. Qed.

(** On names without newline the filter does require the extension: what it
    lets through ends in [.html], and [svg] or [htm] files are left out. *)
Lemma html_extension_without_newline (f : pystr) :
  no_newline f = true -> is_slice_html f = true ->
  exists stem, f = stem ++ str ".html".
Proof.
  intros Hnl Hm. apply (is_slice_html_no_newline f Hnl) in Hm.
  destruct Hm as [mid ->].
  exists (str "slice_z=" ++ mid ++ str "mm").
  now rewrite <- !app_assoc.
Qed.

Example other_extensions_left_out :
  get_all_slice_htmls
    (single_dir DATA_DIR [str "slice_z=50mm.svg"; str "slice_z=50mm.htm"]) DATA_DIR
  = Ok [].
Proof. reflexivity. Qed.

(** C9. The filter ends with [$], which also matches just before a newline
    that closes the name: the entry [slice_z=50mm.html] followed by a newline
    is returned although it does not end in [.html]. *)
Theorem locator_keeps_trailing_newline :
  get_all_slice_htmls
    (single_dir DATA_DIR [str "slice_z=50mm.html" ++ [newline]]) DATA_DIR
  = Ok [str "data/slice_z=50mm.html" ++ [newline]] /\
  endswith (str "data/slice_z=50mm.html" ++ [newline]) (str ".html") = false.
Proof. split; reflexivity. Qed.

(** C10. Among the returned files, those with one and the same key (the
    fallback key 0 included) stand in the order in which the directory
    enumeration gave them; and the returned list is the only list sorted by
    key with that property, so the enumeration order and the keys determine
    it. *)
Theorem locator_stable
  (listdir : filesystem) (data_dir : pystr) (names : list pystr)
  (Hdir : listdir data_dir = Ok names) :
  exists out,
    get_all_slice_htmls listdir data_dir = Ok out /\
    (forall k,
       filter (has_key z_key k) out =
       filter (has_key z_key k)
         (map (path_join data_dir) (filter is_slice_html names))) /\
    (forall out',
       StronglySorted (key_le z_key) out' ->
       (forall k,
          filter (has_key z_key k) out' =
          filter (has_key z_key k)
            (map (path_join data_dir) (filter is_slice_html names))) ->
       out' = out).
Proof.
  exists (sorted z_key (collect data_dir names)). split; [|split].
  - now apply get_all_slice_htmls_ok.
  - intros k. rewrite sorted_stable. now rewrite collect_map.
  - intros out' Hs Hf. apply sorted_unique; [exact Hs|].
    intros k. now rewrite Hf, collect_map.
Qed.

Lemma locator_stable_witness :
  exists out,
    get_all_slice_htmls
      (single_dir DATA_DIR [str "slice_z=bmm.html"; str "slice_z=amm.html"]) DATA_DIR
      = Ok out /\
    (forall k,
       filter (has_key z_key k) out =
       filter (has_key z_key k)
         (map (path_join DATA_DIR)
            (filter is_slice_html [str "slice_z=bmm.html"; str "slice_z=amm.html"]))) /\
    (forall out',
       StronglySorted (key_le z_key) out' ->
       (forall k,
          filter (has_key z_key k) out' =
          filter (has_key z_key k)
            (map (path_join DATA_DIR)
               (filter is_slice_html [str "slice_z=bmm.html"; str "slice_z=amm.html"]))) ->
       out' = out).
Proof.
  apply (@locator_stable
           (single_dir DATA_DIR [str "slice_z=bmm.html"; str "slice_z=amm.html"])
           DATA_DIR [str "slice_z=bmm.html"; str "slice_z=amm.html"]).
  reflexivity.
Defined.

(** Two files on the fallback key keep the order of the enumeration. *)
Example locator_stable_example :
  get_all_slice_htmls
    (single_dir DATA_DIR
       [str "slice_z=7mm.html"; str "slice_z=bmm.html"; str "slice_z=amm.html"])
    DATA_DIR
  = Ok [str "data/slice_z=bmm.html"; str "data/slice_z=amm.html";
        str "data/slice_z=7mm.html"].
Proof. reflexivity. Qed.

(** ** Tables *)

Lemma pystr_eqb_eq (a b : pystr) : pystr_eqb a b = true <-> a = b.
Proof.
  unfold pystr_eqb. destruct (list_eq_dec ascii_dec a b); split; congruence.
Qed.

Lemma pystr_eqb_refl (a : pystr) : pystr_eqb a a = true.
Proof. now apply pystr_eqb_eq. Qed.

Lemma getitem_In (df : DataFrame) (name : pystr) (s : Series) :
  getitem df name = Ok s -> In (name, s) df.
Proof.
  unfold getitem.
  destruct (find (fun c => pystr_eqb (fst c) name) df) as [[n c]|] eqn:E;
    [|discriminate].
  intros [= <-]. apply find_some in E. destruct E as [Hin Hn].
  apply pystr_eqb_eq in Hn. cbn in Hn. now subst n.
Qed.

Lemma getitem_length (df : DataFrame) (name : pystr) (s : Series) :
  well_formed df = true -> getitem df name = Ok s -> length s = nrows df.
Proof.
  intros Hwf H. apply getitem_In in H.
  unfold well_formed in Hwf. rewrite forallb_forall in Hwf.
  specialize (Hwf _ H). now apply Nat.eqb_eq in Hwf.
Qed.

Lemma has_column_getitem (df : DataFrame) (name : pystr) :
  has_column df name = true <-> exists s, getitem df name = Ok s.
Proof.
  unfold has_column, getitem, df_columns.
  induction df as [|[n c] df IH]; cbn.
  - split; [discriminate|intros [s H]; discriminate].
  - destruct (pystr_eqb n name); cbn; [|exact IH].
    split; [intros _; now exists c|reflexivity].
Qed.

Lemma has_column_false (df : DataFrame) (name : pystr) :
  has_column df name = false <-> getitem df name = Raise KeyError.
Proof.
  unfold has_column, getitem, df_columns.
  induction df as [|[n c] df IH]; cbn.
  - tauto.
  - destruct (pystr_eqb n name); cbn; [|exact IH].
    split; discriminate.
Qed.

(** ** The maximum and its position *)

Lemma dropna_In (s : Series) (x : Q) :
  In x (dropna s) <-> In (Num x) s.
Proof.
  induction s as [|[|q] s IH]; cbn.
  - tauto.
  - rewrite IH. split; [tauto|intros [H|H]; [discriminate|exact H]].
  - rewrite IH. split; intros [H|H]; auto; left; congruence.
Qed.

(** The scan of [idxmax]: either the best so far survives, bounding the
    whole column, or the answer is the first position of the column that
    holds its greatest value, which beats the best so far. *)
Lemma argmax_from_spec (s : Series) :
  forall i bi bm k m,
    argmax_from i (bi, bm) s = (k, m) ->
    (k = bi /\ m = bm /\
     forall j x, nth_error s j = Some (Num x) -> x <= bm) \/
    (exists j, k = (i + j)%nat /\ nth_error s j = Some (Num m) /\ bm < m /\
       (forall j' x, nth_error s j' = Some (Num x) -> x <= m) /\
       (forall j' x, (j' < j)%nat -> nth_error s j' = Some (Num x) -> x < m)).
Proof.
  induction s as [|[|q] s IH]; intros i bi bm k m H; cbn [argmax_from snd] in H.
  - left. injection H as <- <-. repeat split.
    intros [|j] x Hj; discriminate.
  - destruct (IH _ _ _ _ _ H) as [[-> [-> Hall]]|[j [-> [Hj [Hlt [Hall Hfirst]]]]]].
    + left. repeat split. intros [|j] x Hj; [discriminate|]. now apply (Hall j).
    + right. exists (S j). repeat split.
      * lia.
      * exact Hj.
      * exact Hlt.
      * intros [|j'] x Hx; [discriminate|]. now apply (Hall j').
      * intros [|j'] x Hlt' Hx; [discriminate|].
        apply (Hfirst j'); [lia|exact Hx].
  - destruct (Qle_bool q bm) eqn:Hq.
    + apply Qle_bool_iff in Hq.
      destruct (IH _ _ _ _ _ H) as [[-> [-> Hall]]|[j [-> [Hj [Hlt [Hall Hfirst]]]]]].
      * left. repeat split. intros [|j] x Hj.
        -- injection Hj as <-. exact Hq.
        -- now apply (Hall j).
      * right. exists (S j). repeat split.
        -- lia.
        -- exact Hj.
        -- exact Hlt.
        -- intros [|j'] x Hx.
           ++ injection Hx as <-. lra.
           ++ now apply (Hall j').
        -- intros [|j'] x Hlt' Hx.
           ++ injection Hx as <-. lra.
           ++ apply (Hfirst j'); [lia|exact Hx].
    + assert (Hq' : bm < q).
      { apply Qnot_le_lt. intros F. apply Qle_bool_iff in F. congruence. }
      destruct (IH _ _ _ _ _ H) as [[-> [-> Hall]]|[j [-> [Hj [Hlt [Hall Hfirst]]]]]].
      * right. exists 0%nat. repeat split.
        -- lia.
        -- exact Hq'.
        -- intros [|j'] x Hx.
           ++ injection Hx as <-. lra.
           ++ now apply (Hall j').
        -- intros j' x Hlt'. lia.
      * right. exists (S j). repeat split.
        -- lia.
        -- exact Hj.
        -- lra.
        -- intros [|j'] x Hx.
           ++ injection Hx as <-. lra.
           ++ now apply (Hall j').
        -- intros [|j'] x Hlt' Hx.
           ++ injection Hx as <-. exact Hlt.
           ++ apply (Hfirst j'); [lia|exact Hx].
Qed.

Lemma argmax_spec (s : Series) :
  forall i k m,
    argmax i s = Some (k, m) ->
    exists j, k = (i + j)%nat /\ nth_error s j = Some (Num m) /\
      (forall j' x, nth_error s j' = Some (Num x) -> x <= m) /\
      (forall j' x, (j' < j)%nat -> nth_error s j' = Some (Num x) -> x < m).
Proof.
  induction s as [|[|q] s IH]; intros i k m H; cbn [argmax] in H.
  - discriminate.
  - destruct (IH _ _ _ H) as [j [-> [Hj [Hall Hfirst]]]].
    exists (S j). repeat split.
    + lia.
    + exact Hj.
    + intros [|j'] x Hx; [discriminate|]. now apply (Hall j').
    + intros [|j'] x Hlt Hx; [discriminate|]. apply (Hfirst j'); [lia|exact Hx].
  - injection H as H.
    destruct (argmax_from_spec _ _ _ _ H)
      as [[-> [-> Hall]]|[j [-> [Hj [Hlt [Hall Hfirst]]]]]].
    + exists 0%nat. repeat split.
      * lia.
      * intros [|j'] x Hx.
        -- injection Hx as <-. lra.
        -- now apply (Hall j').
      * intros j' x Hlt. lia.
    + exists (S j). repeat split.
      * lia.
      * exact Hj.
      * intros [|j'] x Hx.
        -- injection Hx as <-. lra.
        -- now apply (Hall j').
      * intros [|j'] x Hlt' Hx.
        -- injection Hx as <-. exact Hlt.
        -- apply (Hfirst j'); [lia|exact Hx].
Qed.

Lemma argmax_total (s : Series) (i : nat) :
  dropna s <> [] -> exists k m, argmax i s = Some (k, m).
Proof.
  revert i. induction s as [|[|q] s IH]; intros i H; cbn in *.
  - congruence.
  - now apply IH.
  - destruct (argmax_from (S i) (i, q) s) as [k m]. now exists k, m.
Qed.

(** [max] and [idxmax] agree on the value. *)
Lemma argmax_from_max (s : Series) :
  forall i bi bm, snd (argmax_from i (bi, bm) s) = fold_left qmax (dropna s) bm.
Proof.
  induction s as [|[|q] s IH]; intros i bi bm; cbn [argmax_from dropna fold_left snd].
  - reflexivity.
  - apply IH.
  - unfold qmax at 2. destruct (Qle_bool q bm); apply IH.
Qed.

Lemma argmax_max (s : Series) :
  forall i k m, argmax i s = Some (k, m) -> series_max s = Num m.
Proof.
  induction s as [|[|q] s IH]; intros i k m H; cbn [argmax] in H.
  - discriminate.
  - apply (IH _ _ _ H).
  - injection H as H. unfold series_max. cbn [dropna].
    rewrite <- (argmax_from_max s (S i) i q), H. reflexivity.
Qed.

(** ** The eccentricity block *)

Lemma loc_ok (df : DataFrame) (name : pystr) (s : Series) (i : nat) (c : cell) :
  getitem df name = Ok s -> nth_error s i = Some c -> loc df i name = Ok c.
Proof. intros H Hi. unfold loc. rewrite H. cbn. now rewrite Hi. Qed.

Lemma nth_error_same_length {A B : Type} (l : list A) (l' : list B) (i : nat) (a : A) :
  length l = length l' -> nth_error l i = Some a -> exists b, nth_error l' i = Some b.
Proof.
  intros Hlen Hi.
  destruct (nth_error l' i) as [b|] eqn:E; [now exists b|].
  apply nth_error_None in E.
  assert (i < length l)%nat by (apply nth_error_Some; congruence). lia.
Qed.

(** What lines 129-133 compute on a table with the two columns they read. *)
Lemma eccentricity_extremum_spec (df : DataFrame) (es hs : Series) :
  well_formed df = true ->
  getitem df (str "eccentricity_mm") = Ok es ->
  getitem df (str "Height_mm") = Ok hs ->
  dropna es <> [] ->
  exists i m h,
    nth_error es i = Some (Num m) /\ nth_error hs i = Some h /\
    (forall j x, nth_error es j = Some (Num x) -> x <= m) /\
    (forall j x, (j < i)%nat -> nth_error es j = Some (Num x) -> x < m) /\
    eccentricity_extremum df =
      Ok (mkExtremum (Num m) i h
            match getitem df angle_col with
            | Ok angs => nth_error angs i
            | Raise _ => None
            end).
Proof.
  intros Hwf He Hh Hne.
  destruct (argmax_total es 0 Hne) as [i [m Harg]].
  destruct (argmax_spec _ _ Harg) as [j [Hij [Hi [Hall Hfirst]]]].
  cbn in Hij. subst j.
  assert (Hlen : forall name s, getitem df name = Ok s -> length es = length s).
  { intros name s Hs.
    now rewrite (getitem_length df _ Hwf He), (getitem_length df _ Hwf Hs). }
  destruct (nth_error_same_length es hs i (Hlen _ _ Hh) Hi) as [h Hhi].
  exists i, m, h. repeat split; auto.
  unfold eccentricity_extremum. rewrite He. cbn [bind].
  rewrite (argmax_max _ _ Harg).
  unfold idxmax. rewrite Harg. cbn [bind].
  rewrite (loc_ok df _ i Hh Hhi). cbn [bind].
  destruct (has_column df angle_col) eqn:Hc.
  - apply has_column_getitem in Hc. destruct Hc as [angs Ha].
    destruct (nth_error_same_length es angs i (Hlen _ _ Ha) Hi) as [a Hai].
    rewrite (loc_ok df _ i Ha Hai), Ha, Hai. reflexivity.
  - apply has_column_false in Hc. rewrite Hc. reflexivity.
Qed.

(** C3. On a table whose [eccentricity_mm] column holds at least one value,
    the block selects the row of the greatest eccentricity, the first such
    row when several tie, and reads [Height_mm] and, when the column exists,
    [angle_from_bottom_deg] in that same row. On the rows (0, 1.0),
    (10, 5.0), (20, 5.0) it answers the row of height 10. *)
Theorem eccentricity_extremum_first_max
  (df : DataFrame) (es hs : Series)
  (Hwf : well_formed df = true)
  (He : getitem df (str "eccentricity_mm") = Ok es)
  (Hh : getitem df (str "Height_mm") = Ok hs)
  (Hne : dropna es <> []) :
  (exists r m,
     eccentricity_extremum df = Ok r /\
     max_ecc r = Num m /\
     nth_error es (max_ecc_idx r) = Some (Num m) /\
     (forall j x, nth_error es j = Some (Num x) -> x <= m) /\
     (forall j x, (j < max_ecc_idx r)%nat -> nth_error es j = Some (Num x) -> x < m) /\
     nth_error hs (max_ecc_idx r) = Some (max_ecc_z r) /\
     (forall angs, getitem df angle_col = Ok angs ->
        exists a, max_ecc_angle r = Some a /\
                  nth_error angs (max_ecc_idx r) = Some a)) /\
  eccentricity_extremum ecc_example = Ok (mkExtremum (Num 5) 1 (Num 10) None).
Proof.
  split; [|reflexivity].
  destruct (eccentricity_extremum_spec df Hwf He Hh Hne)
    as [i [m [h [Hi [Hhi [Hall [Hfirst Hrun]]]]]]].
  eexists. exists m. split; [exact Hrun|]. cbn.
  repeat split; auto.
  intros angs Ha. rewrite Ha.
  assert (Hlen : length es = length angs)
    by now rewrite (getitem_length df _ Hwf He), (getitem_length df _ Hwf Ha).
  destruct (nth_error_same_length es angs i Hlen Hi) as [a Hai].
  exists a. now rewrite Hai.
Qed.

Lemma eccentricity_extremum_first_max_witness :
  exists r m,
    eccentricity_extremum ecc_example = Ok r /\
    max_ecc r = Num m /\
    nth_error (map Num [1; 5; 5]) (max_ecc_idx r) = Some (Num m) /\
    (forall j x, nth_error (map Num [1; 5; 5]) j = Some (Num x) -> x <= m) /\
    (forall j x, (j < max_ecc_idx r)%nat ->
                 nth_error (map Num [1; 5; 5]) j = Some (Num x) -> x < m) /\
    nth_error (map Num [0; 10; 20]) (max_ecc_idx r) = Some (max_ecc_z r) /\
    (forall angs, getitem ecc_example angle_col = Ok angs ->
       exists a, max_ecc_angle r = Some a /\
                 nth_error angs (max_ecc_idx r) = Some a).
Proof.
  refine (proj1 (@eccentricity_extremum_first_max ecc_example
                   (map Num [1; 5; 5]) (map Num [0; 10; 20]) _ _ _ _)).
  - reflexivity.
  - reflexivity.
  - reflexivity.
  - simpl. discriminate.
Defined.

(** With an angle column the angle of the selected row is read. *)
Example eccentricity_extremum_with_angle :
  eccentricity_extremum
    [col "Height_mm" [0; 10; 20]; col "eccentricity_mm" [1; 5; 5];
     col "angle_from_bottom_deg" [0; 3; 4]]
  = Ok (mkExtremum (Num 5) 1 (Num 10) (Some (Num 3))).
Proof. reflexivity. Qed.

(** C8. When the table has no [angle_from_bottom_deg] column, lines 129-133
    raise nothing: they answer the greatest eccentricity, the height of its
    row, and [None] for the angle. *)
Theorem eccentricity_extremum_missing_angle
  (df : DataFrame) (es hs : Series)
  (Hwf : well_formed df = true)
  (He : getitem df (str "eccentricity_mm") = Ok es)
  (Hh : getitem df (str "Height_mm") = Ok hs)
  (Hne : dropna es <> [])
  (Hno : has_column df angle_col = false) :
  exists r m,
    eccentricity_extremum df = Ok r /\
    max_ecc_angle r = None /\
    max_ecc r = Num m /\
    nth_error es (max_ecc_idx r) = Some (Num m) /\
    (forall j x, nth_error es j = Some (Num x) -> x <= m) /\
    nth_error hs (max_ecc_idx r) = Some (max_ecc_z r).
Proof.
  destruct (eccentricity_extremum_spec df Hwf He Hh Hne)
    as [i [m [h [Hi [Hhi [Hall [Hfirst Hrun]]]]]]].
  apply has_column_false in Hno. rewrite Hno in Hrun.
  eexists. exists m. split; [exact Hrun|]. cbn. repeat split; auto.
Qed.

Lemma eccentricity_extremum_missing_angle_witness :
  exists r m,
    eccentricity_extremum ecc_example = Ok r /\
    max_ecc_angle r = None /\
    max_ecc r = Num m /\
    nth_error (map Num [1; 5; 5]) (max_ecc_idx r) = Some (Num m) /\
    (forall j x, nth_error (map Num [1; 5; 5]) j = Some (Num x) -> x <= m) /\
    nth_error (map Num [0; 10; 20]) (max_ecc_idx r) = Some (max_ecc_z r).
Proof.
  apply (@eccentricity_extremum_missing_angle ecc_example
           (map Num [1; 5; 5]) (map Num [0; 10; 20])).
  - reflexivity.
  - reflexivity.
  - reflexivity.
  - simpl. discriminate.
  - reflexivity.
Defined.

(** The [None] of lines 132-133 does not survive line 142: the block as a
    whole ends in [TypeError] when the angle column is missing. *)
Lemma missing_angle_fails_at_rendering (df : DataFrame) (b : cell * cell) (e : Extremum) :
  bottom_reference df = Ok b ->
  eccentricity_extremum df = Ok e ->
  max_ecc_angle e = None ->
  eccentricity_section df = Raise TypeError.
Proof.
  intros Hb He Ha. unfold eccentricity_section, render_extremum.
  rewrite Hb, He. cbn [bind]. now rewrite Ha.
Qed.

Example missing_angle_example :
  eccentricity_section ecc_example = Raise TypeError.
Proof. reflexivity. Qed.

(** ** The bottom reference *)

Lemma is_centroid_x_iff (name : pystr) :
  is_centroid_x name = true <->
  (exists pre post, lower name = pre ++ str "centroid" ++ post) /\
  (exists pre post, lower name = pre ++ str "x" ++ post).
Proof.
  unfold is_centroid_x. now rewrite andb_true_iff, !contains_iff.
Qed.

Lemma first_centroid_x_some (df : DataFrame) (name : pystr) (xs : Series) :
  first_centroid_x df = Some (name, xs) ->
  is_centroid_x name = true /\
  getitem df name = Ok xs /\
  exists rest, filter is_centroid_x (df_columns df) = name :: rest.
Proof.
  unfold first_centroid_x, getitem, df_columns.
  induction df as [|[n c] df IH]; cbn [find filter map fst snd]; [discriminate|].
  destruct (is_centroid_x n) eqn:Hn.
  - intros [= <- <-]. rewrite pystr_eqb_refl. repeat split; eauto.
  - intros H. destruct (IH H) as [Hname [Hget Hrest]].
    destruct (pystr_eqb n name) eqn:E.
    + apply pystr_eqb_eq in E. congruence.
    + repeat split; auto.
Qed.

Lemma first_centroid_x_none (df : DataFrame) :
  (forall c, In c df -> is_centroid_x (fst c) = false) ->
  filter is_centroid_x (df_columns df) = [].
Proof.
  unfold df_columns. induction df as [|c df IH]; intros H; cbn; [reflexivity|].
  rewrite (H c (or_introl eq_refl)). apply IH.
  intros c' Hc'. apply H. now right.
Qed.

(** C5. On a table with at least one row, lines 126-128 answer the
    [Height_mm] of the first row together with the first-row value of the
    first column whose lower-cased name contains both [centroid] and [x], or
    0.0 when no column has such a name. For the first row
    (Height_mm = 0.0, Centroid_X = 3.5) the answer is (0.0, 3.5). *)
Theorem bottom_reference_first_row
  (df : DataFrame) (h : cell) (hs : Series)
  (Hwf : well_formed df = true)
  (Hh : getitem df (str "Height_mm") = Ok (h :: hs)) :
  (forall name xs,
     first_centroid_x df = Some (name, xs) ->
     is_centroid_x name = true /\
     exists x rest, xs = x :: rest /\ bottom_reference df = Ok (h, x)) /\
  ((forall c, In c df -> is_centroid_x (fst c) = false) ->
   bottom_reference df = Ok (h, Num 0)) /\
  bottom_reference bottom_example = Ok (Num 0, Num (35 # 10)).
Proof.
  split; [|split; [|reflexivity]].
  - intros name xs Hfirst.
    destruct (first_centroid_x_some df Hfirst) as [Hname [Hget [rest Hrest]]].
    split; [exact Hname|].
    assert (Hlen : length xs = length (h :: hs))
      by now rewrite (getitem_length df _ Hwf Hget), (getitem_length df _ Hwf Hh).
    destruct xs as [|x xs']; [discriminate|].
    exists x, xs'. split; [reflexivity|].
    unfold bottom_reference. rewrite Hh. cbn [bind iloc nth_error].
    rewrite Hrest, Hget. reflexivity.
  - intros Hnone. unfold bottom_reference. rewrite Hh. cbn [bind iloc nth_error].
    now rewrite (first_centroid_x_none df Hnone).
Qed.

Lemma bottom_reference_first_row_witness :
  (forall name xs,
     first_centroid_x bottom_example = Some (name, xs) ->
     is_centroid_x name = true /\
     exists x rest, xs = x :: rest /\
                    bottom_reference bottom_example = Ok (Num 0, x)) /\
  ((forall c, In c bottom_example -> is_centroid_x (fst c) = false) ->
   bottom_reference bottom_example = Ok (Num 0, Num 0)) /\
  bottom_reference bottom_example = Ok (Num 0, Num (35 # 10)).
Proof.
  apply (@bottom_reference_first_row bottom_example (Num 0) []).
  - reflexivity.
  - reflexivity.
Defined.

(** Without a centroid-x column the second component is 0.0; and the test
    looks for the letter [x] anywhere in the name. *)
Example bottom_reference_default :
  bottom_reference [col "Height_mm" [7]; col "Centroid_Y" [35 # 10]]
    = Ok (Num 7, Num 0) /\
  bottom_reference [col "Height_mm" [7]; col "centroid_y_max" [2]; col "Centroid_X" [3]]
    = Ok (Num 7, Num 2).
Proof. split; reflexivity. Qed.

(** * Further properties of the program *)

(** ** Displayed names and returned paths *)

Lemma no_slash_existsb (f : pystr) :
  no_slash f = true -> existsb (Ascii.eqb slash) f = false.
Proof.
  unfold no_slash. induction f as [|c f IH]; cbn [forallb existsb]; [reflexivity|].
  intros H. apply andb_true_iff in H. destruct H as [Hc Hf].
  apply negb_true_iff in Hc. rewrite Ascii.eqb_sym, Hc. now apply IH.
Qed.

Lemma basename_no_slash (f : pystr) : no_slash f = true -> basename f = f.
Proof.
  destruct f as [|c f]; [reflexivity|]. intros H. cbn [basename].
  assert (Hf : no_slash f = true).
  { unfold no_slash in *. cbn [forallb] in H. apply andb_true_iff in H. tauto. }
  rewrite (no_slash_existsb f Hf).
  unfold no_slash in H. cbn [forallb] in H. apply andb_true_iff in H.
  destruct H as [Hc _]. apply negb_true_iff in Hc. now rewrite Hc.
Qed.

Lemma basename_after_slash (a f : pystr) :
  no_slash f = true -> basename (a ++ slash :: f) = f.
Proof.
  intros Hf. induction a as [|c a IH]; cbn [app basename].
  - now rewrite (no_slash_existsb f Hf), Ascii.eqb_refl.
  - rewrite existsb_app. cbn [existsb]. rewrite Ascii.eqb_refl.
    rewrite orb_true_r. exact IH.
Qed.

(** [os.path.basename] undoes [os.path.join] on a directory entry. *)
Lemma basename_path_join (d f : pystr) :
  no_slash f = true -> basename (path_join d f) = f.
Proof.
  intros Hf. rewrite path_join_relative by exact Hf.
  destruct (dir_prefix_cases d) as [[Ed [->|[d' ->]]]|Ed]; rewrite Ed.
  - now apply basename_no_slash.
  - rewrite <- app_assoc. now apply basename_after_slash.
  - rewrite <- app_assoc. now apply basename_after_slash.
Qed.

Lemma In_sorted_collect (d : pystr) (names : list pystr) (p : pystr) :
  In p (sorted z_key (collect d names)) ->
  exists f, In f names /\ is_slice_html f = true /\ p = path_join d f.
Proof.
  intros H. apply In_collect.
  now apply (Permutation_in _ (Permutation_sym (sorted_perm z_key _))).
Qed.

(** ** The key of a file name and the order of the output *)








(** X1. The names shown in the select box (line 44) and the paths returned by
    the locator run in parallel: the path at a position is the directory
    joined with the name at that position. The names shown are the directory
    entries that pass the filter, each once per occurrence, and none is shown
    exactly when no entry passes. *)
Theorem displayed_names_match_paths
  (listdir : filesystem) (data_dir : pystr) (names : list pystr)
  (Hdir : listdir data_dir = Ok names)
  (Hnames : forall f, In f names -> no_slash f = true) :
  exists out,
    get_all_slice_htmls listdir data_dir = Ok out /\
    map (path_join data_dir) (slice_file_names out) = out /\
    Permutation (slice_file_names out) (filter is_slice_html names) /\
    (out = [] <-> forall f, In f names -> is_slice_html f = false).
Proof.
  exists (sorted z_key (collect data_dir names)).
  assert (Hback : forall p, In p (sorted z_key (collect data_dir names)) ->
                            path_join data_dir (basename p) = p).
  { intros p Hp. destruct (In_sorted_collect _ _ _ Hp) as [f [Hf [_ ->]]].
    now rewrite basename_path_join by auto. }
  assert (Hperm : Permutation (slice_file_names (sorted z_key (collect data_dir names)))
                              (filter is_slice_html names)).
  { unfold slice_file_names.
    eapply perm_trans;
      [apply Permutation_map, Permutation_sym, sorted_perm|].
    rewrite collect_map, map_map.
    rewrite (map_ext_in _ (fun f => f)), map_id; [apply Permutation_refl|].
    intros f Hf. apply filter_In in Hf. apply basename_path_join. now apply Hnames. }
  split; [now apply get_all_slice_htmls_ok|]. split; [|split].
  - unfold slice_file_names. rewrite map_map.
    rewrite (map_ext_in _ (fun p => p)), map_id; [reflexivity|exact Hback].
  - exact Hperm.
  - split.
    + intros E f Hf. rewrite E in Hperm. cbn in Hperm.
      apply Permutation_nil in Hperm.
      destruct (is_slice_html f) eqn:Hm; [|reflexivity].
      assert (F : In f (filter is_slice_html names)) by (apply filter_In; now split).
      rewrite Hperm in F. destruct F.
    + intros Hnone.
      destruct (sorted z_key (collect data_dir names)) as [|p out] eqn:E; [reflexivity|].
      assert (Hp : In p (sorted z_key (collect data_dir names)))
        by (rewrite E; now left).
      destruct (In_sorted_collect _ _ _ Hp) as [f [Hf [Hm _]]].
      rewrite (Hnone f Hf) in Hm. discriminate.
Qed.

Lemma displayed_names_match_paths_witness :
  exists out,
    get_all_slice_htmls (single_dir DATA_DIR example_names) DATA_DIR = Ok out /\
    map (path_join DATA_DIR) (slice_file_names out) = out /\
    Permutation (slice_file_names out) (filter is_slice_html example_names) /\
    (out = [] <-> forall f, In f example_names -> is_slice_html f = false).
Proof.
  apply (@displayed_names_match_paths
           (single_dir DATA_DIR example_names) DATA_DIR example_names).
  - reflexivity.
  - intros f [<-|[<-|[<-|[]]]]; reflexivity.
Defined.

(** ** The slice viewer *)

Lemma list_index_In (x : pystr) (xs : list pystr) :
  In x xs ->
  exists i, list_index x xs = Ok i /\ nth_error xs i = Some x.
Proof.
  induction xs as [|y xs IH]; intros H; [destruct H|].
  cbn [list_index]. destruct (pystr_eqb y x) eqn:E.
  - apply pystr_eqb_eq in E. subst y. now exists 0%nat.
  - destruct H as [H|H]; [apply pystr_eqb_eq in H; congruence|].
    destruct (IH H) as [i [Hi Hn]]. exists (S i). rewrite Hi. now split.
Qed.

Lemma list_index_not_In (x : pystr) (xs : list pystr) :
  ~ In x xs -> list_index x xs = Raise ValueError.
Proof.
  induction xs as [|y xs IH]; intros H; [reflexivity|].
  cbn [list_index]. destruct (pystr_eqb y x) eqn:E.
  - apply pystr_eqb_eq in E. exfalso. apply H. now left.
  - rewrite IH; [reflexivity|]. intros F. apply H. now right.
Qed.

(** X2. Whatever name of the select box is chosen, the viewer reads the file
    of that name in the scanned directory and no other: it shows its text,
    offers that same text for download under the chosen name, and raises
    what the reading raises. The chosen name is a directory entry that
    passed the filter. *)
Theorem slice_viewer_reads_selected
  (listdir : filesystem) (read : pystr -> result pystr)
  (data_dir : pystr) (names out : list pystr) (selected : pystr)
  (Hdir : listdir data_dir = Ok names)
  (Hnames : forall f, In f names -> no_slash f = true)
  (Hout : get_all_slice_htmls listdir data_dir = Ok out)
  (Hsel : In selected (slice_file_names out)) :
  In selected names /\ is_slice_html selected = true /\
  slice_viewer read out (slice_file_names out) selected =
    (html <- read (path_join data_dir selected) ;;
     Ok (Some (mkSliceView (slice_subheader selected) html
                 (str "Download " ++ selected) html selected))).
Proof.
  rewrite (get_all_slice_htmls_ok listdir data_dir Hdir) in Hout.
  injection Hout as Hout.
  destruct (list_index_In _ _ Hsel) as [i [Hidx Hi]].
  unfold slice_file_names in Hi. rewrite nth_error_map in Hi.
  destruct (nth_error out i) as [p|] eqn:Hp; [|discriminate].
  cbn in Hi. injection Hi as Hi.
  assert (Hin : In p (sorted z_key (collect data_dir names))).
  { rewrite Hout. eapply nth_error_In. exact Hp. }
  destruct (In_sorted_collect _ _ _ Hin) as [f [Hf [Hm ->]]].
  rewrite basename_path_join in Hi by auto. subst f.
  split; [exact Hf|]. split; [exact Hm|].
  unfold slice_viewer.
  destruct out as [|p0 out']; [destruct i; discriminate|].
  rewrite Hidx. cbn [bind]. unfold list_get. rewrite Hp. reflexivity.
Qed.

Lemma slice_viewer_reads_selected_witness :
  In (str "slice_z=50mm.html") example_names /\
  is_slice_html (str "slice_z=50mm.html") = true /\
  slice_viewer (fun p => Ok p)
    [str "data/slice_z=50mm.html"; str "data/slice_z=100mm.html"]
    (slice_file_names [str "data/slice_z=50mm.html"; str "data/slice_z=100mm.html"])
    (str "slice_z=50mm.html") =
    (html <- (fun p => Ok p) (path_join DATA_DIR (str "slice_z=50mm.html")) ;;
     Ok (Some (mkSliceView (slice_subheader (str "slice_z=50mm.html")) html
                 (str "Download " ++ str "slice_z=50mm.html") html
                 (str "slice_z=50mm.html")))).
Proof.
  apply (@slice_viewer_reads_selected
           (single_dir DATA_DIR example_names) (fun p => Ok p) DATA_DIR
           example_names
           [str "data/slice_z=50mm.html"; str "data/slice_z=100mm.html"]
           (str "slice_z=50mm.html")).
  - reflexivity.
  - intros f [<-|[<-|[<-|[]]]]; reflexivity.
  - reflexivity.
  - simpl. auto.
Defined.

(** ** The order of the enumeration *)

Section SortedOrderFacts.
Variable A : Type.
Variable key : A -> Z.

Lemma filter_perm (f : A -> bool) (l l' : list A) :
  Permutation l l' -> Permutation (filter f l) (filter f l').
Proof.
  induction 1 as [|x l l' _ IH|x y l|l l' l'' _ IH1 _ IH2]; cbn.
  - constructor.
  - destruct (f x); [now constructor|exact IH].
  - destruct (f x), (f y); try apply Permutation_refl. apply perm_swap.
  - eapply perm_trans; eassumption.
Qed.

Lemma filter_none (f : A -> bool) (l : list A) :
  (forall x, In x l -> f x = false) -> filter f l = [].
Proof.
  induction l as [|x l IH]; intros H; cbn; [reflexivity|].
  rewrite (H x (or_introl eq_refl)). apply IH. intros y Hy. apply H. now right.
Qed.

(** With pairwise distinct keys a class of equal keys has at most one
    member. *)
Lemma key_class_short (l : list A) (k : Z) :
  NoDup (map key l) -> (length (filter (has_key key k) l) <= 1)%nat.
Proof.
  induction l as [|x l IH]; cbn [map filter]; intros H; [cbn; lia|].
  inversion H as [|? ? Hx Hl]; subst.
  unfold has_key at 1. destruct (Z.eqb_spec (key x) k) as [E|E]; [|now apply IH].
  rewrite filter_none; [cbn; lia|].
  intros y Hy. unfold has_key. apply Z.eqb_neq. intros Ey.
  apply Hx. rewrite E, <- Ey. now apply in_map.
Qed.

Lemma perm_short (l l' : list A) :
  Permutation l l' -> (length l <= 1)%nat -> l = l'.
Proof.
  intros H Hlen. destruct l as [|x [|y l]]; cbn in Hlen; [| |lia].
  - now apply Permutation_nil in H.
  - now apply Permutation_length_1_inv in H.
Qed.

(** Sorting by pairwise distinct keys forgets the order of the input. *)
Lemma sorted_perm_invariant (l l' : list A) :
  Permutation l l' -> NoDup (map key l) -> sorted key l = sorted key l'.
Proof.
  intros H Hnd.
  apply (@sorted_by_classes A key); [apply sorted_sorted|apply sorted_sorted|].
  intros k. rewrite !sorted_stable.
  apply perm_short; [now apply filter_perm|exact (key_class_short l k Hnd)].
Qed.
End SortedOrderFacts.

Lemma collect_perm (d : pystr) (names names' : list pystr) :
  Permutation names names' -> Permutation (collect d names) (collect d names').
Proof.
  intros H. rewrite !collect_map. now apply Permutation_map, filter_perm.
Qed.

(** X3. [os.listdir] enumerates a directory in arbitrary order. When the
    collected files have pairwise distinct keys, two enumerations of the
    same entries give the same list: the result does not depend on the order
    of the enumeration. *)
Theorem locator_ignores_enumeration_order
  (listdir listdir' : filesystem) (data_dir : pystr) (names names' : list pystr)
  (Hdir : listdir data_dir = Ok names)
  (Hdir' : listdir' data_dir = Ok names')
  (Hperm : Permutation names names')
  (Hkeys : NoDup (map z_key (collect data_dir names))) :
  get_all_slice_htmls listdir data_dir = get_all_slice_htmls listdir' data_dir.
Proof.
  rewrite (get_all_slice_htmls_ok listdir data_dir Hdir).
  rewrite (get_all_slice_htmls_ok listdir' data_dir Hdir').
  f_equal. apply sorted_perm_invariant; [|exact Hkeys].
  now apply collect_perm.
Qed.

Lemma locator_ignores_enumeration_order_witness :
  get_all_slice_htmls (single_dir DATA_DIR example_names) DATA_DIR =
  get_all_slice_htmls
    (single_dir DATA_DIR
       [str "slice_z=50mm.html"; str "slice_z=100mm.html"; str "readme.txt"])
    DATA_DIR.
Proof.
  apply (@locator_ignores_enumeration_order
           (single_dir DATA_DIR example_names)
           (single_dir DATA_DIR
              [str "slice_z=50mm.html"; str "slice_z=100mm.html"; str "readme.txt"])
           DATA_DIR example_names
           [str "slice_z=50mm.html"; str "slice_z=100mm.html"; str "readme.txt"]).
  - reflexivity.
  - reflexivity.
  - unfold example_names.
    eapply perm_trans; [apply perm_skip, perm_swap|apply perm_swap].
  - vm_compute. repeat constructor; simpl; intuition discriminate.
Defined.

(** ** Files named after the convention *)

Lemma z_key_of_run (g rest : pystr) :
  g <> [] -> forallb digit g = true ->
  z_key (str "slice_z=" ++ g ++ str "mm" ++ rest) = int_of_digits g.
Proof.
  intros Hne Hg. unfold z_key.
  assert (Hm : match_here slice_key_re []
                 (str "slice_z=" ++ g ++ str "mm" ++ rest) = Some g).
  { apply match_key_iff. exists rest. now repeat split. }
  destruct (str "slice_z=" ++ g ++ str "mm" ++ rest);
    cbn [re_search]; now rewrite Hm.
Qed.

Lemma digits_no_newline (g : pystr) : forallb digit g = true -> no_newline g = true.
Proof.
  intros H. unfold no_newline. rewrite forallb_forall in *. intros c Hc.
  specialize (H c Hc). unfold dot.
  destruct (Ascii.eqb_spec c newline) as [->|]; [discriminate|reflexivity].
Qed.

Lemma slice_name_is_html (g : pystr) :
  forallb digit g = true ->
  is_slice_html (str "slice_z=" ++ g ++ str "mm.html") = true.
Proof.
  intros Hg. apply is_slice_html_iff. exists g.
  split; [now apply digits_no_newline|now left].
Qed.

Lemma slice_name_no_slash (g : pystr) :
  forallb digit g = true ->
  no_slash (str "slice_z=" ++ g ++ str "mm.html") = true.
Proof.
  intros Hg. now rewrite !no_slash_app, (digits_no_slash g Hg).
Qed.

(** X4. In a directory whose own path holds no [slice_z=<digits>mm], a file
    named [slice_z=<N>mm.html] is returned with the decimal value of [N] as
    its key, so of two such files the one with the smaller number comes
    first: the order is numeric, not alphabetic. *)
Theorem named_slices_in_numeric_order
  (listdir : filesystem) (data_dir : pystr) (names : list pystr) (ga gb : pystr)
  (Hdir : listdir data_dir = Ok names)
  (Hd : no_height_run data_dir)
  (Ha : ga <> [] /\ forallb digit ga = true)
  (Hb : gb <> [] /\ forallb digit gb = true)
  (Hina : In (str "slice_z=" ++ ga ++ str "mm.html") names)
  (Hinb : In (str "slice_z=" ++ gb ++ str "mm.html") names)
  (Hlt : (int_of_digits ga < int_of_digits gb)%Z) :
  exists out,
    get_all_slice_htmls listdir data_dir = Ok out /\
    z_key (path_join data_dir (str "slice_z=" ++ ga ++ str "mm.html"))
      = int_of_digits ga /\
    z_key (path_join data_dir (str "slice_z=" ++ gb ++ str "mm.html"))
      = int_of_digits gb /\
    In (path_join data_dir (str "slice_z=" ++ ga ++ str "mm.html")) out /\
    In (path_join data_dir (str "slice_z=" ++ gb ++ str "mm.html")) out /\
    forall i j,
      nth_error out i = Some (path_join data_dir (str "slice_z=" ++ ga ++ str "mm.html")) ->
      nth_error out j = Some (path_join data_dir (str "slice_z=" ++ gb ++ str "mm.html")) ->
      (i < j)%nat.
Proof.
  destruct Ha as [Hnea Hga], Hb as [Hneb Hgb].
  assert (Hkey : forall g, g <> [] -> forallb digit g = true ->
            z_key (path_join data_dir (str "slice_z=" ++ g ++ str "mm.html"))
            = int_of_digits g).
  { intros g Hne Hg.
    rewrite z_key_path_join by (auto using slice_name_no_slash).
    now apply (z_key_of_run (str ".html") Hne Hg). }
  assert (Hmem : forall g, forallb digit g = true ->
            In (str "slice_z=" ++ g ++ str "mm.html") names ->
            In (path_join data_dir (str "slice_z=" ++ g ++ str "mm.html"))
               (sorted z_key (collect data_dir names))).
  { intros g Hg Hin. apply (Permutation_in _ (sorted_perm z_key _)).
    apply In_collect. exists (str "slice_z=" ++ g ++ str "mm.html").
    auto using slice_name_is_html. }
  exists (sorted z_key (collect data_dir names)).
  split; [now apply get_all_slice_htmls_ok|].
  split; [now apply Hkey|]. split; [now apply Hkey|].
  split; [now apply Hmem|]. split; [now apply Hmem|].
  intros i j Hi Hj.
  apply (sorted_positions (sorted_sorted z_key (collect data_dir names)) _ _ Hi Hj).
  rewrite !Hkey by assumption. exact Hlt.
Qed.

Lemma named_slices_in_numeric_order_witness :
  exists out,
    get_all_slice_htmls (single_dir DATA_DIR example_names) DATA_DIR = Ok out /\
    z_key (path_join DATA_DIR (str "slice_z=" ++ str "50" ++ str "mm.html"))
      = int_of_digits (str "50") /\
    z_key (path_join DATA_DIR (str "slice_z=" ++ str "100" ++ str "mm.html"))
      = int_of_digits (str "100") /\
    In (path_join DATA_DIR (str "slice_z=" ++ str "50" ++ str "mm.html")) out /\
    In (path_join DATA_DIR (str "slice_z=" ++ str "100" ++ str "mm.html")) out /\
    forall i j,
      nth_error out i
        = Some (path_join DATA_DIR (str "slice_z=" ++ str "50" ++ str "mm.html")) ->
      nth_error out j
        = Some (path_join DATA_DIR (str "slice_z=" ++ str "100" ++ str "mm.html")) ->
      (i < j)%nat.
Proof.
  apply (@named_slices_in_numeric_order
           (single_dir DATA_DIR example_names) DATA_DIR example_names
           (str "50") (str "100")).
  - reflexivity.
  - apply re_search_key_None. reflexivity.
  - split; [discriminate|reflexivity].
  - split; [discriminate|reflexivity].
  - simpl. auto.
  - simpl. auto.
  - vm_compute. reflexivity.
Defined.

(** ** The session flag *)

Lemma ss_get_set_same (st : session_state) (k : pystr) (v : bool) :
  ss_get (ss_set st k v) k = Some v.
Proof.
  induction st as [|[k' v'] st IH]; cbn [ss_set ss_get].
  - now rewrite pystr_eqb_refl.
  - destruct (pystr_eqb k' k) eqn:E; cbn [ss_get]; rewrite E; [reflexivity|exact IH].
Qed.

Lemma ss_get_set_other (st : session_state) (k k0 : pystr) (v : bool) :
  k0 <> k -> ss_get (ss_set st k v) k0 = ss_get st k0.
Proof.
  intros Hne. induction st as [|[k' v'] st IH]; cbn [ss_set ss_get].
  - destruct (pystr_eqb k k0) eqn:E; [|reflexivity].
    apply pystr_eqb_eq in E. congruence.
  - destruct (pystr_eqb k' k) eqn:E; cbn [ss_get].
    + destruct (pystr_eqb k' k0) eqn:E0; [|reflexivity].
      apply pystr_eqb_eq in E, E0. congruence.
    + now rewrite IH.
Qed.

(** A run shows the results when the flag was already set or the button is
    pressed in that run. *)
Lemma shows_results_update (pressed : bool) (st : session_state) :
  shows_results (update_session pressed st) = shows_results st || pressed.
Proof.
  unfold update_session, shows_results.
  destruct (ss_get st RUN_PIPELINE) as [b|] eqn:E; cbn [is_some].
  - destruct pressed.
    + rewrite ss_get_set_same. now rewrite orb_true_r.
    + rewrite E. now rewrite orb_false_r.
  - destruct pressed.
    + now rewrite ss_get_set_same.
    + now rewrite ss_get_set_same.
Qed.

Lemma update_session_other (pressed : bool) (st : session_state) (k : pystr) :
  k <> RUN_PIPELINE -> ss_get (update_session pressed st) k = ss_get st k.
Proof.
  intros Hk. unfold update_session.
  destruct (is_some (ss_get st RUN_PIPELINE)), pressed;
    now rewrite ?ss_get_set_other by exact Hk.
Qed.

(** X6. Over the successive runs of a session, a run renders the results
    exactly when the flag was set when the session began or the button has
    been pressed in that run or in an earlier one: once shown, the results
    stay. The runs never touch another key of the session state. *)
Theorem results_stay_once_run (presses : list bool) :
  forall (st : session_state) (k : nat),
    (nth_error (session presses st) k = Some true <->
     (k < length presses)%nat /\
     (shows_results st = true \/
      exists j, (j <= k)%nat /\ nth_error presses j = Some true)) /\
    length (session presses st) = length presses /\
    forall key p, key <> RUN_PIPELINE ->
      ss_get (update_session p st) key = ss_get st key.
Proof.
  induction presses as [|p presses IH]; intros st k.
  - split; [|split; [reflexivity|intros; now apply update_session_other]].
    cbn. split.
    + destruct k; discriminate.
    + intros [H _]. lia.
  - destruct (IH (update_session p st) (pred k)) as [IHk [IHlen _]].
    split; [|split; [|intros; now apply update_session_other]].
    + cbn [session script_run length].
      destruct k as [|k]; cbn [nth_error pred] in *.
      * rewrite shows_results_update. split.
        -- intros [= H]. split; [lia|].
           apply orb_true_iff in H. destruct H as [H|H]; [now left|].
           right. exists 0%nat. subst p. now split.
        -- intros [_ [H|[j [Hj Hp]]]].
           ++ now rewrite H.
           ++ assert (j = 0%nat) by lia. subst j. cbn in Hp.
              injection Hp as ->. now rewrite orb_true_r.
      * rewrite IHk, shows_results_update. split.
        -- intros [Hk [H|[j [Hj Hp]]]]; (split; [lia|]).
           ++ apply orb_true_iff in H. destruct H as [H|H]; [now left|].
              right. exists 0%nat. subst p. split; [lia|reflexivity].
           ++ right. exists (S j). split; [lia|exact Hp].
        -- intros [Hk [H|[j [Hj Hp]]]]; (split; [lia|]).
           ++ left. now rewrite H.
           ++ destruct j as [|j]; cbn in Hp.
              ** injection Hp as ->. left. now rewrite orb_true_r.
              ** right. exists j. split; [lia|exact Hp].
    + cbn [session script_run length]. now rewrite IHlen.
Qed.

(** Two runs without a press, one with, two without. *)
Example session_example :
  session [false; false; true; false; false] [] = [false; false; true; true; true].
Proof. reflexivity. Qed.

Lemma results_stay_once_run_witness :
  (nth_error (session [false; true; false] []) 2 = Some true <->
   (2 < length [false; true; false])%nat /\
   (shows_results [] = true \/
    exists j, (j <= 2)%nat /\ nth_error [false; true; false] j = Some true)) /\
  length (session [false; true; false] []) = length [false; true; false] /\
  forall key p, key <> RUN_PIPELINE ->
    ss_get (update_session p []) key = ss_get [] key.
Proof.
  apply (@results_stay_once_run [false; true; false] [] 2%nat).
Defined.

(** ** When the eccentricity block succeeds *)

Lemma argmax_none (s : Series) (i : nat) : dropna s = [] -> argmax i s = None.
Proof.
  revert i. induction s as [|[|q] s IH]; intros i H; cbn in *.
  - reflexivity.
  - now apply IH.
  - discriminate.
Qed.

Lemma idxmax_no_value (s : Series) : dropna s = [] -> idxmax s = Raise ValueError.
Proof. intros H. unfold idxmax. now rewrite (argmax_none s 0 H). Qed.

(** Lines 126-128 succeed on a well-formed table with a [Height_mm] column
    and a first row. *)
Lemma bottom_reference_ok (df : DataFrame) (h : cell) (hs : Series) :
  well_formed df = true ->
  getitem df (str "Height_mm") = Ok (h :: hs) ->
  exists x, bottom_reference df = Ok (h, x).
Proof.
  intros Hwf Hh. unfold bottom_reference. rewrite Hh. cbn [bind iloc nth_error].
  destruct (first_centroid_x df) as [[n xs]|] eqn:E.
  - destruct (first_centroid_x_some df E) as [_ [Hget [rest Hrest]]].
    assert (Hlen : length xs = length (h :: hs))
      by now rewrite (getitem_length df _ Hwf Hget), (getitem_length df _ Hwf Hh).
    destruct xs as [|x xs]; [discriminate|].
    exists x. now rewrite Hrest, Hget.
  - exists (Num 0). rewrite first_centroid_x_none; [reflexivity|].
    intros c Hc. unfold first_centroid_x in E.
    exact (find_none _ _ E c Hc).
Qed.

(** X7. On a well-formed table of numeric columns, lines 126-145 run to the
    end exactly when the table has a [Height_mm] column with a first row, an
    [eccentricity_mm] column with at least one value, and an
    [angle_from_bottom_deg] column. The result then carries an angle: the
    block never renders [None]. *)
Theorem eccentricity_section_succeeds_iff (df : DataFrame)
  (Hwf : well_formed df = true) :
  ((exists r, eccentricity_section df = Ok r) <->
   (exists h hs es,
      getitem df (str "Height_mm") = Ok (h :: hs) /\
      getitem df (str "eccentricity_mm") = Ok es /\
      dropna es <> [] /\
      has_column df angle_col = true)) /\
  (forall b e, eccentricity_section df = Ok (b, e) -> max_ecc_angle e <> None).
Proof.
  split.
  - split.
    + intros [[b e] H]. unfold eccentricity_section in H.
      destruct (bottom_reference df) as [b'|] eqn:Hb; [|discriminate].
      destruct (eccentricity_extremum df) as [e'|] eqn:He; [|discriminate].
      cbn [bind] in H. unfold render_extremum in H.
      destruct (max_ecc_angle e') as [a|] eqn:Ha; [|discriminate].
      (* the height column and its first row *)
      unfold bottom_reference in Hb.
      destruct (getitem df (str "Height_mm")) as [hcol|] eqn:Hh; [|discriminate].
      cbn [bind] in Hb. unfold iloc in Hb.
      destruct hcol as [|h hs]; [discriminate|].
      (* the eccentricity column and its values *)
      unfold eccentricity_extremum in He.
      destruct (getitem df (str "eccentricity_mm")) as [es|] eqn:Hes; [|discriminate].
      cbn [bind] in He.
      assert (Hne : dropna es <> []).
      { intros Hnil. rewrite (idxmax_no_value es Hnil) in He. discriminate. }
      exists h, hs, es. repeat split; auto.
      (* the angle column *)
      destruct (idxmax es) as [i|]; [|discriminate]. cbn [bind] in He.
      destruct (loc df i (str "Height_mm")) as [z|]; [|discriminate].
      cbn [bind] in He.
      destruct (has_column df angle_col); [reflexivity|].
      cbn [bind] in He. injection He as <-. discriminate.
    + intros [h [hs [es [Hh [Hes [Hne Hc]]]]]].
      destruct (bottom_reference_ok df Hwf Hh) as [x Hb].
      destruct (eccentricity_extremum_spec df Hwf Hes Hh Hne)
        as [i [m [z [Hi [Hz [_ [_ He]]]]]]].
      apply has_column_getitem in Hc. destruct Hc as [angs Ha].
      rewrite Ha in He.
      assert (Hlen : length es = length angs)
        by now rewrite (getitem_length df _ Hwf Hes), (getitem_length df _ Hwf Ha).
      destruct (nth_error_same_length es angs i Hlen Hi) as [a Hai].
      rewrite Hai in He.
      eexists. unfold eccentricity_section. rewrite Hb, He. reflexivity.
  - intros b e H. unfold eccentricity_section in H.
    destruct (bottom_reference df) as [b'|]; [|discriminate].
    destruct (eccentricity_extremum df) as [e'|]; [|discriminate].
    cbn [bind] in H. unfold render_extremum in H.
    destruct (max_ecc_angle e') as [a|] eqn:Ha; [|discriminate].
    cbn [bind] in H. injection H as _ <-. rewrite Ha. discriminate.
Qed.

Lemma eccentricity_section_succeeds_iff_witness :
  ((exists r,
      eccentricity_section
        [col "Height_mm" [0; 10]; col "eccentricity_mm" [1; 5];
         col "angle_from_bottom_deg" [0; 3]] = Ok r) <->
   (exists h hs es,
      getitem [col "Height_mm" [0; 10]; col "eccentricity_mm" [1; 5];
               col "angle_from_bottom_deg" [0; 3]] (str "Height_mm") = Ok (h :: hs) /\
      getitem [col "Height_mm" [0; 10]; col "eccentricity_mm" [1; 5];
               col "angle_from_bottom_deg" [0; 3]] (str "eccentricity_mm") = Ok es /\
      dropna es <> [] /\
      has_column [col "Height_mm" [0; 10]; col "eccentricity_mm" [1; 5];
                  col "angle_from_bottom_deg" [0; 3]] angle_col = true)) /\
  (forall b e,
     eccentricity_section
       [col "Height_mm" [0; 10]; col "eccentricity_mm" [1; 5];
        col "angle_from_bottom_deg" [0; 3]] = Ok (b, e) ->
     max_ecc_angle e <> None).
Proof.
  apply (@eccentricity_section_succeeds_iff
           [col "Height_mm" [0; 10]; col "eccentricity_mm" [1; 5];
            col "angle_from_bottom_deg" [0; 3]]).
  reflexivity.
Defined.

(** A table without rows stops the block at line 126. *)
Example eccentricity_section_no_row :
  eccentricity_section
    [col "Height_mm" []; col "eccentricity_mm" []; col "angle_from_bottom_deg" []]
  = Raise IndexError.
Proof. reflexivity. Qed.

(** ** What the locator returns, newlines included *)

(** X10. The locator returns the joined paths of exactly those entries whose
    name is [slice_z=], a middle part without newline, [mm.html], and
    possibly one closing newline; it returns no more paths than the
    directory has entries. A newline inside the middle part keeps a file
    out, whatever else its name holds. *)
Theorem locator_returns_exactly
  (listdir : filesystem) (data_dir : pystr) (names : list pystr)
  (Hdir : listdir data_dir = Ok names) :
  exists out,
    get_all_slice_htmls listdir data_dir = Ok out /\
    (forall p,
       In p out <->
       exists f mid,
         In f names /\ no_newline mid = true /\
         (f = str "slice_z=" ++ mid ++ str "mm.html" \/
          f = str "slice_z=" ++ mid ++ str "mm.html" ++ [newline]) /\
         p = path_join data_dir f) /\
    (length out <= length names)%nat.
Proof.
  exists (sorted z_key (collect data_dir names)).
  split; [now apply get_all_slice_htmls_ok|]. split.
  - intros p. split.
    + intros H. destruct (In_sorted_collect _ _ _ H) as [f [Hf [Hm ->]]].
      apply is_slice_html_iff in Hm. destruct Hm as [mid [Hmid Hshape]].
      exists f, mid. auto.
    + intros [f [mid [Hf [Hmid [Hshape ->]]]]].
      apply (Permutation_in _ (sorted_perm z_key _)).
      apply In_collect. exists f. repeat split; auto.
      apply is_slice_html_iff. eauto.
  - rewrite <- (Permutation_length (sorted_perm z_key (collect data_dir names))).
    rewrite collect_map, length_map. apply filter_length_le.
Qed.

Lemma locator_returns_exactly_witness :
  exists out,
    get_all_slice_htmls (single_dir DATA_DIR example_names) DATA_DIR = Ok out /\
    (forall p,
       In p out <->
       exists f mid,
         In f example_names /\ no_newline mid = true /\
         (f = str "slice_z=" ++ mid ++ str "mm.html" \/
          f = str "slice_z=" ++ mid ++ str "mm.html" ++ [newline]) /\
         p = path_join DATA_DIR f) /\
    (length out <= length example_names)%nat.
Proof.
  apply (@locator_returns_exactly
           (single_dir DATA_DIR example_names) DATA_DIR example_names).
  reflexivity.
Defined.

(** A newline in the middle of the name. *)
Example newline_inside_the_name :
  get_all_slice_htmls
    (single_dir DATA_DIR [str "slice_z=5" ++ newline :: str "0mm.html"]) DATA_DIR
  = Ok [].
Proof. reflexivity. Qed.
